(** * The orbital position worker of sat-tracker

    A shallow embedding of [src/app/workers/satellite-worker.ts]: the TLE
    cache ([parseTLE]), the ellipsoidal inversion ([ecefToGeodetic]), the
    visibility rule ([isSatelliteVisible]), the batch pass
    ([propagateSatellites]) and the message handler ([onmessage]).

    Around the worker, the code that feeds it and the code that consumes
    its batches: the catalog source ([fetchTLEFromCelesTrak] and the
    assembly in [GET] of the fetch-tle route), the hook [useSatellites],
    the counts of the analysis view, the filter store with the displayed
    list, and the response cache of the [above] and [n2yo] routes.

    Modelling conventions.
    - A JavaScript [number] is a rational ([Qc]), the value of a finite
      double, or one of the three special values [PosInf], [NegInf],
      [NaN].  The four arithmetic operations round their exact result with
      [round], a parameter of the development ([Rounding]); the remainder
      is exact, as it is on doubles.  Literals stand for their decimal
      value.  Overflow to an infinity and the sign of zero are not
      represented.
    - [Math.sin], [Math.cos], [Math.atan2], [Math.sqrt] belong to the
      platform and the functions imported from [satellite.js] belong to a
      third party library; both are interfaces ([MathLib], [SatelliteJs])
      over which the worker is parametric, assumed to be pure functions.
    - The module level [satelliteCache] is threaded explicitly.
    - [console] output is not represented.
    - A string is a sequence of code units below 256.  [toLowerCase] and
      [includes] are an interface ([StringLib]); [trim], [split] and
      [substring] are written out.
    - The times of the response cache are integers, the milliseconds of
      [Date.now()]. *)

From Stdlib Require Import QArith Qcanon ZArith Lia Lqa Ascii.
From stdpp Require Import base decidable option list strings gmap sorting.
From Equations Require Import Equations.

Local Open Scope Z_scope.

(** ** JavaScript numbers *)

Inductive number : Type :=
| Num (q : Qc)
| PosInf
| NegInf
| NaN.

(** Numeric literals of the source: [lit 6378.137], [lit 180]. *)
Definition lit (q : Q) : number := Num (Q2Qc q).
Arguments lit q%_Q.

(** The rounding applied to the exact result of an arithmetic
    operation. *)
Class Rounding : Type := round : Qc -> Qc.

(** Arithmetic without rounding. *)
Definition exact : Rounding := fun q => q.

Module JsNum.

Definition Qc_ltb (x y : Qc) : bool :=
  Qnum x * QDen y <? Qnum y * QDen x.
Definition Qc_is0 (x : Qc) : bool := Qnum x =? 0.
Definition Qc_pos (x : Qc) : bool := 0 <? Qnum x.
Definition Qc_neg (x : Qc) : bool := Qnum x <? 0.

(** Truncation toward zero, as in the definition of [%] on numbers. *)
Definition Qc_trunc (x : Qc) : Qc :=
  Q2Qc (inject_Z (Z.quot (Qnum x) (QDen x))).

(** The global function [isFinite]. *)
Definition isFinite (a : number) : bool :=
  match a with Num _ => true | _ => false end.

(** [ToBoolean]: zero and [NaN] are falsy. *)
Definition truthy (a : number) : bool :=
  match a with
  | Num q => negb (Qc_is0 q)
  | NaN => false
  | PosInf | NegInf => true
  end.

Definition neg (a : number) : number :=
  match a with
  | Num q => Num (- q)%Qc
  | PosInf => NegInf
  | NegInf => PosInf
  | NaN => NaN
  end.

Definition add {R : Rounding} (a b : number) : number :=
  match a, b with
  | NaN, _ | _, NaN => NaN
  | Num x, Num y => Num (round (x + y)%Qc)
  | PosInf, NegInf | NegInf, PosInf => NaN
  | PosInf, _ | _, PosInf => PosInf
  | NegInf, _ | _, NegInf => NegInf
  end.

Definition sub {R : Rounding} (a b : number) : number := add a (neg b).

(** Sign of a number other than [NaN]: [Some true] is positive, [Some
    false] negative, [None] zero. *)
Definition sign (a : number) : option bool :=
  match a with
  | Num q => if Qc_is0 q then None else Some (Qc_pos q)
  | PosInf => Some true
  | NegInf => Some false
  | NaN => None
  end.

Definition inf_of (positive : bool) : number :=
  if positive then PosInf else NegInf.

Definition mul {R : Rounding} (a b : number) : number :=
  match a, b with
  | NaN, _ | _, NaN => NaN
  | Num x, Num y => Num (round (x * y)%Qc)
  | _, _ =>
      match sign a, sign b with
      | Some sa, Some sb => inf_of (Bool.eqb sa sb)
      | _, _ => NaN
      end
  end.

Definition div {R : Rounding} (a b : number) : number :=
  match a, b with
  | NaN, _ | _, NaN => NaN
  | Num x, Num y =>
      if Qc_is0 y
      then match sign a with Some s => inf_of s | None => NaN end
      else Num (round (x / y)%Qc)
  | Num _, _ => Num 0%Qc
  | _, Num y => if Qc_neg y then neg a else a
  | _, _ => NaN
  end.

(** The remainder operator [%]: the result takes the sign of the
    dividend and is not rounded. *)
Definition rem (a b : number) : number :=
  match a, b with
  | Num x, Num y =>
      if Qc_is0 y then NaN else Num (x - y * Qc_trunc (x / y))%Qc
  | Num x, (PosInf | NegInf) => Num x
  | _, _ => NaN
  end.

Definition lt (a b : number) : bool :=
  match a, b with
  | Num x, Num y => Qc_ltb x y
  | NegInf, (Num _ | PosInf) => true
  | Num _, PosInf => true
  | _, _ => false
  end.

End JsNum.

Declare Scope js_scope.
Delimit Scope js_scope with js.
Bind Scope js_scope with number.
Infix "+" := JsNum.add : js_scope.
Infix "-" := JsNum.sub : js_scope.
Infix "*" := JsNum.mul : js_scope.
Infix "/" := JsNum.div : js_scope.
Infix "%%" := JsNum.rem (at level 40, left associativity) : js_scope.
Infix "<?" := JsNum.lt : js_scope.

(** [Math.PI], the double nearest to pi, is the rational
    884279719003555 / 2^48. *)
Definition Math_PI : number := lit (884279719003555 # 281474976710656).

(** ** The platform's [Math] functions *)

Record MathLib : Type := {
  Math_sin : number -> number;
  Math_cos : number -> number;
  Math_sqrt : number -> number;
  Math_atan2 : number -> number -> number
}.

(** What the language definition fixes for these functions at the points
    used below: exact results at zero and one, and finite results of [cos]
    on finite arguments. *)
Record MathLaws (M : MathLib) : Prop := {
  sin_zero : Math_sin M (Num 0%Qc) = Num 0%Qc;
  sqrt_zero : Math_sqrt M (Num 0%Qc) = Num 0%Qc;
  sqrt_one : Math_sqrt M (Num 1%Qc) = Num 1%Qc;
  atan2_zero_one : Math_atan2 M (Num 0%Qc) (Num 1%Qc) = Num 0%Qc;
  cos_finite : forall q, JsNum.isFinite (Math_cos M (Num q)) = true
}.

(** What holds of rounding to the nearest double, short of overflow: it is
    monotone and idempotent, integers up to [2^53] are exact, a difference
    [x - y] of doubles with [y/2 <= x <= 2y] is exact (Sterbenz), and so is
    the remainder of two doubles. *)
Record RoundingLaws (R : Rounding) : Prop := {
  round_monotone : forall x y : Qc, (x <= y)%Qc -> (round x <= round y)%Qc;
  round_idempotent : forall x : Qc, round (round x) = round x;
  round_integer : forall z : Z,
    Z.abs z <= 2 ^ 53 -> round (Q2Qc (inject_Z z)) = Q2Qc (inject_Z z);
  round_sterbenz : forall x y : Qc,
    round x = x -> round y = y ->
    (y / Q2Qc 2 <= x)%Qc -> (x <= Q2Qc 2 * y)%Qc ->
    round (x - y)%Qc = (x - y)%Qc;
  round_rem : forall x y : Qc,
    round x = x -> round y = y -> JsNum.Qc_is0 y = false ->
    round (x - y * JsNum.Qc_trunc (x / y))%Qc
    = (x - y * JsNum.Qc_trunc (x / y))%Qc
}.

(** ** Data exchanged with the consumer *)

Record TLE : Type := { line1 : string; line2 : string }.

Record SatelliteData : Type := {
  sd_name : string;
  sd_noradId : string;
  sd_category : string;
  tle : TLE
}.

Record Position : Type := { lat : number; lon : number; alt : number }.

Record Vec3 : Type := { vx : number; vy : number; vz : number }.

Record SatellitePosition : Type := {
  name : string;
  noradId : string;
  category : string;
  position : Position;
  velocity : Vec3;
  visible : bool
}.

Record Geodetic : Type := {
  latitude : number;
  longitude : number;
  height : number
}.

Local Open Scope js_scope.

(** ** [ecefToGeodetic] and [isSatelliteVisible] *)

Section Geometry.
Context {R : Rounding} (M : MathLib).

Definition wgs84_a : number := lit 6378.137.
Definition wgs84_f : number := lit 1 / lit 298.257223563.
Definition wgs84_e2 : number := wgs84_f * (lit 2 - wgs84_f).

(** The body of the [for] loop of [ecefToGeodetic]: one refinement of the
    latitude through the radius of curvature [N] and the altitude. *)
Definition refineLatitude (p z lat : number) : number :=
  let sinLat := Math_sin M lat in
  let N := wgs84_a / Math_sqrt M (lit 1 - wgs84_e2 * sinLat * sinLat) in
  let alt := p / Math_cos M lat - N in
  Math_atan2 M z (p * (lit 1 - wgs84_e2 * (N / (N + alt)))).

(** [for (let i = 0; i < 5; i++) { ... }], entered with counter [i] and
    the current latitude. *)
Equations? latitudeLoop (p z : number) (i : nat) (lat : number) : number
  by wf (5 - i)%nat lt :=
latitudeLoop p z i lat with decide (i < 5)%nat := {
  | left _ => latitudeLoop p z (S i) (refineLatitude p z lat)
  | right _ => lat }.
Proof. lia. Qed.

Definition ecefToGeodetic (x y z : number) : Geodetic :=
  let lon := Math_atan2 M y x in
  let p := Math_sqrt M (x * x + y * y) in
  let lat0 := Math_atan2 M z (p * (lit 1 - wgs84_e2)) in
  let lat := latitudeLoop p z 0 lat0 in
  let sinLat := Math_sin M lat in
  let N := wgs84_a / Math_sqrt M (lit 1 - wgs84_e2 * sinLat * sinLat) in
  let height := p / Math_cos M lat - N in
  {| latitude := lat; longitude := lon; height := height |}.

(** The products with [Math.PI] below are modelled without overflow, as
    all arithmetic is: the model follows the source as long as they stay
    inside the range of doubles, which they do for coordinates in
    degrees and far beyond (see [inRangeOfDoubles]). *)
Definition isSatelliteVisible (position : Position)
    (observerLat observerLon observerAlt : number) : bool :=
  let earthRadius := lit 6371 in
  let minAltitude := lit 200 in
  if alt position <? minAltitude then false
  else
    let lat1 := observerLat * Math_PI / lit 180 in
    let lon1 := observerLon * Math_PI / lit 180 in
    let lat2 := lat position * Math_PI / lit 180 in
    let lon2 := lon position * Math_PI / lit 180 in
    let dlat := lat2 - lat1 in
    let dlon := lon2 - lon1 in
    let a :=
      Math_sin M (dlat / lit 2) * Math_sin M (dlat / lit 2)
      + Math_cos M lat1 * Math_cos M lat2
        * Math_sin M (dlon / lit 2) * Math_sin M (dlon / lit 2) in
    let c := lit 2 * Math_atan2 M (Math_sqrt M a) (Math_sqrt M (lit 1 - a)) in
    let distance := earthRadius * c in
    distance <? lit 2000.

End Geometry.

(** ** The functions imported from [satellite.js] *)

Record Date : Type := { getTime : number }.

(** [new Date(value)]: the time value is clipped to the representable
    range of dates and truncated to an integer; otherwise the date is
    invalid ([NaN]). *)
Definition new_Date (value : number) : Date :=
  match value with
  | Num q =>
      if JsNum.Qc_ltb (Q2Qc 8640000000000000) q
         || JsNum.Qc_ltb q (Q2Qc (-8640000000000000))
      then {| getTime := NaN |}
      else {| getTime := Num (JsNum.Qc_trunc q) |}
  | _ => {| getTime := NaN |}
  end.

(** What [propagate] hands back.  [PropThrows] stands for a call that
    raises, and for a [null] result, on which reading [.position] raises.
    A component [None] is a position or velocity that is [undefined] or
    [false]. *)
Inductive PropagateResult : Type :=
| PropThrows
| PositionAndVelocity (pv_position pv_velocity : option Vec3).

Record SatelliteJs : Type := {
  SatRec : Type;
  (** the fields read by the sanity check; a missing field reads as [NaN] *)
  satrec_no : SatRec -> number;
  satrec_ecco : SatRec -> number;
  satrec_inclo : SatRec -> number;
  (** [None]: the call throws *)
  twoline2satrec : string -> string -> option SatRec;
  propagate : SatRec -> Date -> PropagateResult;
  gstime : Date -> number;
  eciToEcf : Vec3 -> number -> Vec3
}.

(** [L] with another parser in the place of [twoline2satrec]. *)
Definition with_parser (L : SatelliteJs)
    (f : string -> string -> option (SatRec L)) : SatelliteJs :=
  {| SatRec := SatRec L;
     satrec_no := satrec_no L; satrec_ecco := satrec_ecco L;
     satrec_inclo := satrec_inclo L;
     twoline2satrec := f; propagate := propagate L;
     gstime := gstime L; eciToEcf := eciToEcf L |}.

(** ** The worker *)

Record LoopState (R : Type) : Type := {
  positions : list SatellitePosition;
  parsedCount : nat;
  propagatedCount : nat;
  geodeticCount : nat;
  debugLogged : nat;
  satelliteCache : gmap string R
}.
Arguments positions {R}.
Arguments parsedCount {R}.
Arguments propagatedCount {R}.
Arguments geodeticCount {R}.
Arguments debugLogged {R}.
Arguments satelliteCache {R}.

Inductive MessageType : Type :=
| INIT
| PROPAGATE
| OtherType (tag : string).

Record MessageData : Type := {
  satellites : option (list SatelliteData);
  timestamp : option number;
  observerLat : option number;
  observerLon : option number;
  observerAlt : option number
}.

Record WorkerMessage : Type := {
  msg_type : MessageType;
  msg_data : option MessageData
}.

Record PositionsData : Type := {
  pd_positions : list SatellitePosition;
  pd_timestamp : number;
  pd_count : nat
}.

Inductive WorkerResponse : Type :=
| READY
| POSITIONS (data : PositionsData)
| ERROR (error : string).

(** [x || d] on an optional number: a missing, zero or [NaN] value gives
    [d]. *)
Definition or_default (x : option number) (d : number) : number :=
  match x with
  | Some v => if JsNum.truthy v then v else d
  | None => d
  end.

Definition cacheKey (satellite : SatelliteData) : string :=
  sd_noradId satellite +:+ "-" +:+ line1 (tle satellite)
  +:+ "-" +:+ line2 (tle satellite).

#[global] Instance TLE_eq_dec : EqDecision TLE.
Proof. solve_decision. Defined.

(** No two entries of the catalog share a cache key unless they carry the
    same two lines. *)
Definition keyConsistent (satellites : list SatelliteData) : bool :=
  forallb (fun a =>
    forallb (fun b =>
      if decide (cacheKey a = cacheKey b)
      then bool_decide (tle a = tle b) else true) satellites) satellites.

Section Worker.
Context {R : Rounding} (M : MathLib) (L : SatelliteJs).

Local Abbreviation Cache := (gmap string (SatRec L)).
Local Abbreviation State := (LoopState (SatRec L)).

(** [parseTLE] with the cache passed in and out. *)
Definition parseTLE (cache : Cache) (satellite : SatelliteData)
    : option (SatRec L) * Cache :=
  let key := cacheKey satellite in
  match cache !! key with
  | Some satrec => (Some satrec, cache)
  | None =>
      match twoline2satrec L (line1 (tle satellite)) (line2 (tle satellite)) with
      | Some satrec => (Some satrec, <[key := satrec]> cache)
      | None => (None, cache)
      end
  end.

Definition finite3 (v : Vec3) : bool :=
  JsNum.isFinite (vx v) && JsNum.isFinite (vy v) && JsNum.isFinite (vz v).

Definition with_cache (st : State) (c : Cache) : State :=
  {| positions := positions st; parsedCount := parsedCount st;
     propagatedCount := propagatedCount st; geodeticCount := geodeticCount st;
     debugLogged := debugLogged st; satelliteCache := c |}.

Definition incr_parsed (st : State) : State :=
  {| positions := positions st; parsedCount := S (parsedCount st);
     propagatedCount := propagatedCount st; geodeticCount := geodeticCount st;
     debugLogged := debugLogged st; satelliteCache := satelliteCache st |}.

Definition incr_propagated (st : State) : State :=
  {| positions := positions st; parsedCount := parsedCount st;
     propagatedCount := S (propagatedCount st);
     geodeticCount := geodeticCount st;
     debugLogged := debugLogged st; satelliteCache := satelliteCache st |}.

Definition incr_geodetic (st : State) : State :=
  {| positions := positions st; parsedCount := parsedCount st;
     propagatedCount := propagatedCount st;
     geodeticCount := S (geodeticCount st);
     debugLogged := debugLogged st; satelliteCache := satelliteCache st |}.

Definition incr_debugLogged (st : State) : State :=
  {| positions := positions st; parsedCount := parsedCount st;
     propagatedCount := propagatedCount st; geodeticCount := geodeticCount st;
     debugLogged := S (debugLogged st); satelliteCache := satelliteCache st |}.

Definition push (st : State) (s : SatellitePosition) : State :=
  {| positions := positions st ++ [s]; parsedCount := parsedCount st;
     propagatedCount := propagatedCount st; geodeticCount := geodeticCount st;
     debugLogged := debugLogged st; satelliteCache := satelliteCache st |}.

(** Degrees and the normalisation of the longitude, lines 232 to 234. *)
Definition toDegrees (rad : number) : number := rad * lit 180 / Math_PI.

Definition normalizeLon (lonDeg : number) : number :=
  ((lonDeg + lit 180) %% lit 360 + lit 360) %% lit 360 - lit 180.

(** [x % 360] for a finite [x]. *)
Definition rem360 (x : Qc) : Qc :=
  (x - Q2Qc 360 * JsNum.Qc_trunc (x / Q2Qc 360))%Qc.

(** A longitude in degrees that lies in the half-open interval. *)
Definition lonInRange (a : number) : Prop :=
  exists r, a = Num r /\ (Q2Qc (-180) <= r)%Qc /\ (r < Q2Qc 180)%Qc.

(** One turn of [for (const satellite of satellites)].  Every [continue]
    and the [catch] clause leave the turn with the state reached so far. *)
Definition loopBody (date : Date) (st : State) (satellite : SatelliteData)
    : State :=
  let '(parsed, cache') := parseTLE (satelliteCache st) satellite in
  let st := with_cache st cache' in
  match parsed with
  | None => st
  | Some satrec =>
      let st := incr_parsed st in
      if negb (JsNum.isFinite (satrec_no L satrec))
         || negb (JsNum.isFinite (satrec_ecco L satrec))
         || negb (JsNum.isFinite (satrec_inclo L satrec))
      then st
      else
        match propagate L satrec date with
        | PropThrows => st
        | PositionAndVelocity None _ => st
        | PositionAndVelocity (Some eci) vel =>
            if negb (JsNum.isFinite (vx eci))
               || negb (JsNum.isFinite (vy eci))
               || negb (JsNum.isFinite (vz eci))
            then st
            else
              match vel with
              | None => st
              | Some eciVelocity =>
                  let st := incr_propagated st in
                  let gmst := gstime L date in
                  let posEcf := eciToEcf L eci gmst in
                  let geodetic :=
                    ecefToGeodetic M (vx posEcf) (vy posEcf) (vz posEcf) in
                  let velocityEcf := eciToEcf L eciVelocity gmst in
                  if negb (JsNum.isFinite (latitude geodetic))
                     || negb (JsNum.isFinite (longitude geodetic))
                     || negb (JsNum.isFinite (height geodetic))
                  then incr_debugLogged st
                  else
                    let st := incr_geodetic st in
                    let latDeg := toDegrees (latitude geodetic) in
                    let lonDeg := toDegrees (longitude geodetic) in
                    let lonDeg := normalizeLon lonDeg in
                    let position :=
                      {| lat := latDeg; lon := lonDeg;
                         alt := height geodetic |} in
                    let velocity :=
                      {| vx := vx velocityEcf; vy := vy velocityEcf;
                         vz := vz velocityEcf |} in
                    let visible := true in
                    push st
                      {| name := sd_name satellite;
                         noradId := sd_noradId satellite;
                         category := sd_category satellite;
                         position := position;
                         velocity := velocity;
                         visible := visible |}
              end
        end
  end.

Definition initialState (cache : Cache) : State :=
  {| positions := []; parsedCount := 0; propagatedCount := 0;
     geodeticCount := 0; debugLogged := 0; satelliteCache := cache |}.

(** The whole pass; the final state carries the counters that the source
    only writes to the console. *)
Definition propagateLoop (cache : Cache) (satellites : list SatelliteData)
    (timestamp : number) : State :=
  let date := new_Date timestamp in
  foldl (loopBody date) (initialState cache) satellites.

Definition propagateSatellites (cache : Cache)
    (satellites : list SatelliteData) (timestamp : number)
    (observerLat observerLon observerAlt : number)
    : list SatellitePosition * Cache :=
  let st := propagateLoop cache satellites timestamp in
  (positions st, satelliteCache st).

(** [self.onmessage]; [now] is what [Date.now()] returns during the
    call. *)
Definition onmessage (now : number) (cache : Cache) (msg : WorkerMessage)
    : WorkerResponse * Cache :=
  match msg_type msg with
  | INIT => (READY, cache)
  | PROPAGATE =>
      match msg_data msg with
      | None => (ERROR "No satellite data provided", cache)
      | Some data =>
          match satellites data with
          | None => (ERROR "No satellite data provided", cache)
          | Some sats =>
              let timestamp := or_default (timestamp data) now in
              let observerLat := or_default (observerLat data) (lit 0) in
              let observerLon := or_default (observerLon data) (lit 0) in
              let observerAlt := or_default (observerAlt data) (lit 0) in
              let '(positions, cache') :=
                propagateSatellites cache sats timestamp
                  observerLat observerLon observerAlt in
              (POSITIONS {| pd_positions := positions;
                            pd_timestamp := timestamp;
                            pd_count := length positions |}, cache')
          end
      end
  | OtherType tag => (ERROR ("Unknown message type: " +:+ tag), cache)
  end.

End Worker.

Arguments with_cache {L}.
Arguments incr_parsed {L}.
Arguments incr_propagated {L}.
Arguments incr_geodetic {L}.
Arguments incr_debugLogged {L}.
Arguments push {L}.
Arguments initialState {L}.

(** ** The per-entry failure taxonomy

    What one catalog entry comes to, read off the stages of the pass:
    parsing, the sanity check on the parsed record together with the
    propagation, the geodetic transform. *)

Inductive Outcome : Type :=
| ParseFailure
| InvalidRecord
| PropagationFailure
| TransformFailure
| Emitted (s : SatellitePosition).

Definition isParseFailure (o : Outcome) : bool :=
  match o with ParseFailure => true | _ => false end.

(** Parsed, but no usable state vector. *)
Definition isPropagationFailure (o : Outcome) : bool :=
  match o with InvalidRecord | PropagationFailure => true | _ => false end.

Definition isTransformFailure (o : Outcome) : bool :=
  match o with TransformFailure => true | _ => false end.

Definition isEmitted (o : Outcome) : bool :=
  match o with Emitted _ => true | _ => false end.

Definition emitted (o : Outcome) : option SatellitePosition :=
  match o with Emitted s => Some s | _ => None end.

(** A name for each outcome. *)
Definition kind (o : Outcome) : string :=
  match o with
  | ParseFailure => "parse"
  | InvalidRecord => "record"
  | PropagationFailure => "propagation"
  | TransformFailure => "transform"
  | Emitted _ => "sample"
  end.

Fixpoint countb {A : Type} (f : A -> bool) (l : list A) : nat :=
  match l with
  | [] => 0
  | x :: l' => (if f x then 1 else 0) + countb f l'
  end.

Section Taxonomy.
Context {R : Rounding} (M : MathLib) (L : SatelliteJs).

Local Abbreviation Cache := (gmap string (SatRec L)).
Local Abbreviation State := (LoopState (SatRec L)).

(** The state vector of a propagation that passes the checks of the loop:
    a position with three finite components and a velocity that is
    present. *)
Definition stateVector (r : PropagateResult) : option (Vec3 * Vec3) :=
  match r with
  | PositionAndVelocity (Some eci) (Some vel) =>
      if finite3 eci then Some (eci, vel) else None
  | _ => None
  end.

Definition entryOutcome (date : Date) (parsed : option (SatRec L))
    (satellite : SatelliteData) : Outcome :=
  match parsed with
  | None => ParseFailure
  | Some satrec =>
      if JsNum.isFinite (satrec_no L satrec)
         && JsNum.isFinite (satrec_ecco L satrec)
         && JsNum.isFinite (satrec_inclo L satrec)
      then
        match stateVector (propagate L satrec date) with
        | None => PropagationFailure
        | Some (eci, vel) =>
            let gmst := gstime L date in
            let ecf := eciToEcf L eci gmst in
            let g := ecefToGeodetic M (vx ecf) (vy ecf) (vz ecf) in
            let v := eciToEcf L vel gmst in
            if JsNum.isFinite (latitude g) && JsNum.isFinite (longitude g)
               && JsNum.isFinite (height g)
            then Emitted
                   {| name := sd_name satellite;
                      noradId := sd_noradId satellite;
                      category := sd_category satellite;
                      position :=
                        {| lat := toDegrees (latitude g);
                           lon := normalizeLon (toDegrees (longitude g));
                           alt := height g |};
                      velocity := {| vx := vx v; vy := vy v; vz := vz v |};
                      visible := true |}
            else TransformFailure
        end
      else InvalidRecord
  end.

(** What an outcome does to the state of the loop. *)
Definition tally (o : Outcome) (st : State) : State :=
  match o with
  | ParseFailure => st
  | InvalidRecord | PropagationFailure => incr_parsed st
  | TransformFailure => incr_debugLogged (incr_propagated (incr_parsed st))
  | Emitted s => push (incr_geodetic (incr_propagated (incr_parsed st))) s
  end.

(** The outcomes of a pass over [satellites], entry by entry, the cache
    evolving as [parseTLE] leaves it. *)
Fixpoint outcomes (date : Date) (cache : Cache)
    (satellites : list SatelliteData) : list Outcome :=
  match satellites with
  | [] => []
  | satellite :: rest =>
      let '(parsed, cache') := parseTLE L cache satellite in
      entryOutcome date parsed satellite :: outcomes date cache' rest
  end.

(** Entries that share a key with an entry the parser rejects are
    rejected too. *)
Definition failuresAgree (satellites : list SatelliteData) : Prop :=
  forall x y, x ∈ satellites -> y ∈ satellites ->
    cacheKey x = cacheKey y ->
    twoline2satrec L (line1 (tle x)) (line2 (tle x)) = None ->
    twoline2satrec L (line1 (tle y)) (line2 (tle y)) = None.

(** The cache once [parseTLE] has seen every entry. *)
Definition cacheAfter (cache : Cache) (satellites : list SatelliteData)
    : Cache :=
  foldl (fun c satellite => (parseTLE L c satellite).2) cache satellites.

End Taxonomy.

Arguments tally {L}.
Arguments cacheAfter {L}.

(** ** The inversion as the specification words it

    Written from the specification alone, with none of the definitions
    of the embedding of [ecefToGeodetic]: the WGS84 ellipsoid with
    semi-major axis 6378.137 km and flattening 1/298.257223563, the
    latitude initialised from [atan2(z, p (1 - e2))] with
    [p = sqrt(x^2 + y^2)], then exactly five refinements of the radius of
    curvature [N] and of the altitude. *)
Module Inversion.
Section Inversion.
Context {R : Rounding} (M : MathLib).

Definition semiMajorAxis : number := lit 6378.137.
Definition flattening : number := lit 1 / lit 298.257223563.

(** The square of the first eccentricity, [e2 = f (2 - f)]. *)
Definition eccentricitySquared : number := flattening * (lit 2 - flattening).

(** The radius of curvature in the prime vertical at a latitude,
    [N = a / sqrt(1 - e2 sin^2 lat)]. *)
Definition curvatureRadius (lat : number) : number :=
  semiMajorAxis
  / Math_sqrt M (lit 1 - eccentricitySquared * Math_sin M lat * Math_sin M lat).

(** The altitude above the ellipsoid of a point at distance [p] from the
    polar axis, at a latitude: [p / cos lat - N]. *)
Definition altitudeAt (p lat : number) : number :=
  p / Math_cos M lat - curvatureRadius lat.

(** One refinement: [N] and the altitude at the current latitude give the
    next latitude, [atan2(z, p (1 - e2 N / (N + alt)))]. *)
Definition refinement (p z lat : number) : number :=
  Math_atan2 M z
    (p * (lit 1
          - eccentricitySquared
            * (curvatureRadius lat
               / (curvatureRadius lat + altitudeAt p lat)))).

Definition initialLatitude (p z : number) : number :=
  Math_atan2 M z (p * (lit 1 - eccentricitySquared)).

End Inversion.
End Inversion.

Definition ecefToGeodetic_spec {R : Rounding} (M : MathLib) (x y z : number)
    : Geodetic :=
  let p := Math_sqrt M (x * x + y * y) in
  let lat :=
    Nat.iter 5 (Inversion.refinement M p z) (Inversion.initialLatitude M p z) in
  {| latitude := lat;
     longitude := Math_atan2 M y x;
     height := Inversion.altitudeAt M p lat |}.

(** A coordinate whose product with [Math.PI] is inside the range of
    doubles with room to spare: its magnitude is at most [10^300].  Every
    latitude and longitude in degrees is one. *)
Definition inRangeOfDoubles (q : Qc) : Prop :=
  (- Q2Qc (inject_Z (10 ^ 300)) <= q)%Qc /\ (q <= Q2Qc (inject_Z (10 ^ 300)))%Qc.

(** The haversine distance over a sphere of radius 6371 km between two
    points given in degrees. *)
Definition haversineKm {R : Rounding} (M : MathLib)
    (lat1Deg lon1Deg lat2Deg lon2Deg : number) : number :=
  let rad d := d * Math_PI / lit 180 in
  let dlat := rad lat2Deg - rad lat1Deg in
  let dlon := rad lon2Deg - rad lon1Deg in
  let a :=
    Math_sin M (dlat / lit 2) * Math_sin M (dlat / lit 2)
    + Math_cos M (rad lat1Deg) * Math_cos M (rad lat2Deg)
      * Math_sin M (dlon / lit 2) * Math_sin M (dlon / lit 2) in
  lit 6371 * (lit 2 * Math_atan2 M (Math_sqrt M a) (Math_sqrt M (lit 1 - a))).

(** ** Executable stand-ins for the two libraries

    Coarse rational versions of the [Math] functions and a small table
    driven replacement for [satellite.js], used to run the worker on
    concrete catalogs. *)

Module Fixture.

(** Round down to a multiple of [2^-40], which keeps the rationals
    small. *)
Definition round40 (q : Qc) : Qc :=
  Q2Qc (Qmake (Z.div (Qnum q * 2 ^ 40) (QDen q)) (2 ^ 40)).

Definition onFinite (f : Qc -> Qc) (a : number) : number :=
  match a with
  | Num q => Num (round40 (f q))
  | _ => NaN
  end.

Definition sinQ (q : Qc) : Qc :=
  (q - q * q * q / Q2Qc 6 + q * q * q * q * q / Q2Qc 120)%Qc.

Definition cosQ (q : Qc) : Qc :=
  (1 - q * q / Q2Qc 2 + q * q * q * q / Q2Qc 24)%Qc.

Fixpoint newton (n : nat) (q r : Qc) : Qc :=
  match n with
  | O => r
  | S n' => newton n' q (round40 ((r + q / r) / Q2Qc 2)%Qc)
  end.

Definition sqrt (a : number) : number :=
  match a with
  | Num q =>
      if JsNum.Qc_neg q then NaN
      else if JsNum.Qc_is0 q then Num 0%Qc
      else Num (newton 40 q (round40 ((q + 1) / Q2Qc 2)%Qc))
  | PosInf => PosInf
  | _ => NaN
  end.

Definition piQ : Qc := Q2Qc (884279719003555 # 281474976710656).

(** [atan t] for [|t| <= 1]. *)
Definition atanUnit (t : Qc) : Qc :=
  (t / (1 + Q2Qc (9 # 32) * t * t))%Qc.

Definition atanQ (t : Qc) : Qc :=
  if JsNum.Qc_ltb 1 t then (piQ / Q2Qc 2 - atanUnit (1 / t))%Qc
  else if JsNum.Qc_ltb t (-1) then (- (piQ / Q2Qc 2) - atanUnit (1 / t))%Qc
  else atanUnit t.

Definition atan2 (y x : number) : number :=
  match y, x with
  | Num b, Num a =>
      if JsNum.Qc_pos a then Num (round40 (atanQ (b / a)))
      else if JsNum.Qc_neg a then
        if JsNum.Qc_neg b then Num (round40 (atanQ (b / a) - piQ))
        else Num (round40 (atanQ (b / a) + piQ))
      else if JsNum.Qc_pos b then Num (round40 (piQ / Q2Qc 2))
      else if JsNum.Qc_neg b then Num (round40 (- (piQ / Q2Qc 2)))
      else Num 0%Qc
  | _, _ => NaN
  end.

Definition math : MathLib :=
  {| Math_sin := onFinite sinQ; Math_cos := onFinite cosQ;
     Math_sqrt := sqrt; Math_atan2 := atan2 |}.

(** The stand-in for [satellite.js] keeps the two lines as the record.
    An empty first line makes the parser throw and an empty second line
    gives a record with non-finite elements; the word in the second line
    selects what the propagation returns. *)
Record Rec : Type := { rec_line1 : string; rec_line2 : string }.

Definition element (r : Rec) : number :=
  if decide (rec_line2 r = "") then NaN else lit 15.5.

Definition parse (l1 l2 : string) : option Rec :=
  if decide (l1 = "") then None
  else Some {| rec_line1 := l1; rec_line2 := l2 |}.

Definition vec (x y z : number) : Vec3 := {| vx := x; vy := y; vz := z |}.

Definition sgp4 (r : Rec) (d : Date) : PropagateResult :=
  if decide (rec_line2 r = "null") then PropThrows
  else if decide (rec_line2 r = "decayed") then PositionAndVelocity None None
  else if decide (rec_line2 r = "nan-position") then
    PositionAndVelocity (Some (vec NaN (lit 0) (lit 0)))
                        (Some (vec (lit 0) (lit 7.5) (lit 0)))
  else if decide (rec_line2 r = "nan-velocity") then
    PositionAndVelocity (Some (vec (lit 6778) (lit 0) (lit 0)))
                        (Some (vec NaN (lit 7.5) PosInf))
  else if decide (rec_line2 r = "origin") then
    PositionAndVelocity (Some (vec (lit 0) (lit 0) (lit 0)))
                        (Some (vec (lit 0) (lit 0) (lit 0)))
  else
    PositionAndVelocity (Some (vec (lit 6778) (lit 0) (lit 0)))
                        (Some (vec (lit 0) (lit 7.5) (lit 0))).

Definition siderealTime (d : Date) : number :=
  match getTime d with
  | Num _ => lit 0
  | _ => NaN
  end.

(** The rotation about the polar axis by the angle [gmst]. *)
Definition rotate {R : Rounding} (v : Vec3) (gmst : number) : Vec3 :=
  {| vx := vx v * Math_cos math gmst + vy v * Math_sin math gmst;
     vy := vx v * JsNum.neg (Math_sin math gmst) + vy v * Math_cos math gmst;
     vz := vz v |}.

Definition lib {R : Rounding} : SatelliteJs :=
  {| SatRec := Rec;
     satrec_no := element; satrec_ecco := element; satrec_inclo := element;
     twoline2satrec := parse; propagate := sgp4;
     gstime := siderealTime; eciToEcf := rotate |}.

Definition entry (id l1 l2 : string) : SatelliteData :=
  {| sd_name := "SAT " +:+ id; sd_noradId := id; sd_category := "demo";
     tle := {| line1 := l1; line2 := l2 |} |}.

(** Two element sets of one object, a day apart. *)
Definition tleA : SatelliteData :=
  entry "25544" "1 25544U 98067A   24001.5" "2 25544  51.64 100.0".
Definition tleB : SatelliteData :=
  entry "25544" "1 25544U 98067A   24002.5" "2 25544  51.64 101.0".

(** One entry the parser rejects and two sound ones. *)
Definition oneBad : list SatelliteData :=
  [entry "1" "" "2 00001"; entry "2" "1 00002U" "2 00002";
   entry "3" "1 00003U" "2 00003"].

(** One entry for each way through the loop. *)
Definition mixed : list SatelliteData :=
  [entry "1" "" "2 00001"; entry "2" "1 00002U" "";
   entry "3" "1 00003U" "decayed"; entry "4" "1 00004U" "null";
   entry "5" "1 00005U" "nan-position"; entry "6" "1 00006U" "origin";
   entry "7" "1 00007U" "2 00007"].

(** Two entries with the cache key [7--a-b]; the parser rejects the
    first, whose first line is empty. *)
Definition colliding : list SatelliteData :=
  [ {| sd_name := "FIRST"; sd_noradId := "7"; sd_category := "demo";
       tle := {| line1 := ""; line2 := "a-b" |} |};
    {| sd_name := "SECOND"; sd_noradId := "7"; sd_category := "demo";
       tle := {| line1 := "-a"; line2 := "b" |} |} ].

Definition nanVelocity : SatelliteData := entry "8" "1 00008U" "nan-velocity".
Definition nanPosition : SatelliteData := entry "5" "1 00005U" "nan-position".
End Fixture.

(** ** Identity of entries and samples

    The fields that identify an object, in a catalog entry and in a
    sample. *)
Definition entryIdentity (d : SatelliteData) : string * string * string :=
  (sd_name d, sd_noradId d, sd_category d).

Definition sampleIdentity (s : SatellitePosition) : string * string * string :=
  (name s, noradId s, category s).

(** No hyphen occurs in [s]. *)
Fixpoint noDash (s : string) : bool :=
  match s with
  | EmptyString => true
  | String c s' => negb (Ascii.eqb c "-"%char) && noDash s'
  end.

(** An entry of a fixed-column catalog: a catalog number without hyphen
    and a first line of [width] characters. *)
Definition fixedColumn (width : nat) (d : SatelliteData) : bool :=
  noDash (sd_noradId d)
  && Nat.eqb (String.length (line1 (tle d))) width.

(** ** The hook [useSatellites], which drives the worker

    The part of its state that the worker's replies change. *)
Record HookState : Type := {
  hk_satellites : list SatellitePosition;
  hk_loading : bool;
  hk_error : option string;
  hk_lastUpdate : option number
}.

(** [propagatePositions]: the message posted on a tick, if any.  [worker]
    tells whether [workerRef.current] is set. *)
Definition propagatePositions (worker : bool)
    (satelliteData : list SatelliteData) (now : number)
    (observerPosition : Position) : option WorkerMessage :=
  if worker && (0 <? length satelliteData)%nat
  then Some {| msg_type := PROPAGATE;
               msg_data :=
                 Some {| satellites := Some satelliteData;
                         timestamp := Some now;
                         observerLat := Some (lat observerPosition);
                         observerLon := Some (lon observerPosition);
                         observerAlt := Some (alt observerPosition) |} |}
  else None.

(** [workerError || "Worker error"]. *)
Definition errorText (workerError : string) : string :=
  if decide (workerError = EmptyString) then "Worker error" else workerError.

(** The hook's [onmessage] handler, on the three replies this worker
    sends. *)
Definition handleReply (st : HookState) (reply : WorkerResponse) : HookState :=
  match reply with
  | READY => st
  | POSITIONS data =>
      {| hk_satellites := pd_positions data;
         hk_loading := hk_loading st;
         hk_error := None;
         hk_lastUpdate := Some (pd_timestamp data) |}
  | ERROR workerError =>
      {| hk_satellites := hk_satellites st;
         hk_loading := hk_loading st;
         hk_error := Some (errorText workerError);
         hk_lastUpdate := hk_lastUpdate st |}
  end.

(** ** The analysis view, a consumer of the batch *)

(** [a >= b] on numbers. *)
Definition js_ge (a b : number) : bool :=
  match a, b with
  | NaN, _ | _, NaN => false
  | _, _ => negb (JsNum.lt a b)
  end.

Record AltitudeRange : Type := { range_min : number; range_max : number }.

Definition altitudeRanges : list AltitudeRange :=
  [ {| range_min := lit 0; range_max := lit 2000 |};
    {| range_min := lit 2000; range_max := lit 35786 |};
    {| range_min := lit 35786; range_max := PosInf |} ].

Definition inRange (range : AltitudeRange) (sat : SatellitePosition) : bool :=
  js_ge (alt (position sat)) (range_min range)
  && JsNum.lt (alt (position sat)) (range_max range).

(** The counts of [analysisData]: nothing for an empty list, otherwise the
    total, the visible and the invisible samples, and the samples of each
    altitude range. *)
Record Analysis : Type := {
  an_total : nat;
  an_visible : nat;
  an_invisible : nat;
  an_ranges : list nat
}.

Definition analysisData (satelliteData : list SatellitePosition)
    : option Analysis :=
  if (length satelliteData =? 0)%nat then None
  else
    let total := length satelliteData in
    let visible := length (List.filter visible satelliteData) in
    let invisible := (total - visible)%nat in
    Some {| an_total := total; an_visible := visible;
            an_invisible := invisible;
            an_ranges :=
              map (fun range =>
                     length (List.filter (inRange range) satelliteData))
                  altitudeRanges |}.

(** ** The filter store and the displayed list *)

(** The string methods that [applyFilters] calls. *)
Record StringLib : Type := {
  toLowerCase : string -> string;
  includes : string -> string -> bool
}.

Inductive Visibility : Type := VisAll | VisVisible | VisInvisible.

Record FilterState : Type := {
  searchTerm : string;
  fs_category : string;
  altitudeRange : number * number;
  visibility : Visibility;
  showOnlyActive : bool
}.

Section Filters.
Context (Str : StringLib).

(** The predicate that [applyFilters] hands to [filter]. *)
Definition passesFilters (filters : FilterState)
    (satellite : SatellitePosition) : bool :=
  let matchesSearch :=
    if decide (searchTerm filters = EmptyString) then true
    else
      let searchLower := toLowerCase Str (searchTerm filters) in
      includes Str (toLowerCase Str (name satellite)) searchLower
      || includes Str (toLowerCase Str (noradId satellite)) searchLower
      || includes Str (toLowerCase Str (category satellite)) searchLower in
  if negb matchesSearch then false
  else if bool_decide (fs_category filters <> "all")
          && bool_decide (category satellite <> fs_category filters)
  then false
  else
    let altitude := alt (position satellite) in
    if JsNum.lt altitude (altitudeRange filters).1
       || JsNum.lt (altitudeRange filters).2 altitude
    then false
    else
      match visibility filters with
      | VisVisible => visible satellite
      | VisInvisible => negb (visible satellite)
      | VisAll => true
      end.

Definition applyFilters (satelliteData : list SatellitePosition)
    (filters : FilterState) : list SatellitePosition :=
  List.filter (passesFilters filters) satelliteData.

End Filters.

(** [displayData] of the [Satellites] component. *)
Definition displayData (filteredSatelliteData satelliteData
    : list SatellitePosition) : list SatellitePosition :=
  if (0 <? length filteredSatelliteData)%nat then filteredSatelliteData
  else satelliteData.

(** ** The response cache of the [above] and [n2yo] routes

    Times are the integer milliseconds of [Date.now()]; [now] is its value
    during the call. *)
Record Cached (A : Type) : Type := { cached_data : A; cached_timestamp : Z }.
Arguments cached_data {A}.
Arguments cached_timestamp {A}.

Definition getCachedData {A : Type} (CACHE_DURATION : Z)
    (cache : gmap string (Cached A)) (now : Z) (key : string) : option A :=
  match cache !! key with
  | Some cached =>
      if (now - cached_timestamp cached <? CACHE_DURATION)%Z
      then Some (cached_data cached) else None
  | None => None
  end.

Definition setCachedData {A : Type} (cache : gmap string (Cached A))
    (now : Z) (key : string) (data : A) : gmap string (Cached A) :=
  <[key := {| cached_data := data; cached_timestamp := now |}]> cache.

(** ** The catalog source: [fetchTLEFromCelesTrak] and [GET]

    Strings are sequences of code units below 256. *)

(** The white space and line terminators that [trim] removes. *)
Definition isWhiteSpace (c : ascii) : bool :=
  let n := nat_of_ascii c in
  ((9 <=? n) && (n <=? 13) || (n =? 32) || (n =? 160))%nat.

Definition isNewline (c : ascii) : bool := (nat_of_ascii c =? 10)%nat.

Fixpoint trimStart (s : string) : string :=
  match s with
  | EmptyString => EmptyString
  | String c s' => if isWhiteSpace c then trimStart s' else s
  end.

Fixpoint trimEnd (s : string) : string :=
  match s with
  | EmptyString => EmptyString
  | String c s' =>
      match trimEnd s' with
      | EmptyString =>
          if isWhiteSpace c then EmptyString else String c EmptyString
      | t => String c t
      end
  end.

(** [s.trim()] *)
Definition trim (s : string) : string := trimEnd (trimStart s).

(** [s.split("\n")] *)
Fixpoint splitLines (s : string) : list string :=
  match s with
  | EmptyString => [EmptyString]
  | String c s' =>
      if isNewline c then EmptyString :: splitLines s'
      else match splitLines s' with
           | h :: t => String c h :: t
           | [] => [String c EmptyString]
           end
  end.

Definition isDigit (c : ascii) : bool :=
  let n := nat_of_ascii c in ((48 <=? n) && (n <=? 57))%nat.

Fixpoint allDigits (s : string) : bool :=
  match s with
  | EmptyString => true
  | String c s' => isDigit c && allDigits s'
  end.

(** [/^[0-9]+$/.test(s)] *)
Definition digitsOnly (s : string) : bool :=
  match s with
  | EmptyString => false
  | _ => allDigits s
  end.

Record TLEData : Type := {
  td_name : string;
  td_line1 : string;
  td_line2 : string;
  td_category : string;
  td_noradId : string
}.

(** The catalog number: columns 3 to 7 of line 2, or of line 1 when those
    of line 2 are not digits. *)
Definition noradIdOf (line1 line2 : string) : string :=
  let noradId := trim (String.substring 2 5 line2) in
  if digitsOnly noradId then noradId
  else trim (String.substring 2 5 line1).

(** The entry pushed for the three lines at [i], [i + 1], [i + 2]. *)
Definition tleEntry (category : string) (lines : list string) (i : nat)
    : TLEData :=
  let name := trim (lines !!! i) in
  let line1 := trim (lines !!! (i + 1)%nat) in
  let line2 := trim (lines !!! (i + 2)%nat) in
  {| td_name := name; td_line1 := line1; td_line2 := line2;
     td_category := category; td_noradId := noradIdOf line1 line2 |}.

(** [for (let i = 0; i < lines.length; i += 3) { if (i + 2 < lines.length)
    { ... satellites.push(...) } }], entered at [i] with the entries pushed
    so far. *)
Equations? tleLoop (category : string) (lines : list string) (i : nat)
    (satellites : list TLEData) : list TLEData
  by wf (length lines - i)%nat lt :=
tleLoop category lines i satellites with decide (i < length lines)%nat := {
  | left _ =>
      if decide (i + 2 < length lines)%nat
      then tleLoop category lines (i + 3)
             (satellites ++ [tleEntry category lines i])
      else tleLoop category lines (i + 3) satellites
  | right _ => satellites }.
Proof. all: lia. Qed.

Definition parseTLEText (category text : string) : list TLEData :=
  tleLoop category (splitLines (trim text)) 0 [].

(** [response] is the body of the reply, or [None] when the request fails
    or the reply is not ok. *)
Definition fetchTLEFromCelesTrak (response : option string)
    (category : string) : list TLEData :=
  match response with
  | Some text => parseTLEText category text
  | None => []
  end.

(** The catalog entry that [GET] makes of a parsed element set. *)
Definition toSatelliteData (t : TLEData) : SatelliteData :=
  {| sd_name := td_name t; sd_noradId := td_noradId t;
     sd_category := td_category t;
     tle := {| line1 := td_line1 t; line2 := td_line2 t |} |}.

(** The catalog that [GET] assembles.  [endpoint] is the table
    [CELESTRAK_ENDPOINTS] and [fetch] gives the body served at an
    address, if the request succeeds. *)
Definition allSatellites (endpoint : string -> option string)
    (fetch : string -> option string) (categories : list string)
    : list SatelliteData :=
  flat_map (fun category =>
              match endpoint category with
              | None => []
              | Some url =>
                  map toSatelliteData
                    (fetchTLEFromCelesTrak (fetch url) category)
              end) categories.

(** The order of the default [sort]: strings compared code unit by code
    unit. *)
Fixpoint codeUnitLe (a b : string) : bool :=
  match a, b with
  | EmptyString, _ => true
  | String _ _, EmptyString => false
  | String x a', String y b' =>
      (nat_of_ascii x <? nat_of_ascii y)%nat
      || ((nat_of_ascii x =? nat_of_ascii y)%nat && codeUnitLe a' b')
  end.

Definition codeUnitOrder (a b : string) : Prop := codeUnitLe a b = true.

#[global] Instance codeUnitOrder_dec (a b : string) :
  Decision (codeUnitOrder a b).
Proof. unfold codeUnitOrder. apply _. Defined.

(** [categories.slice().sort().join(",")] in [GET]. *)
Definition categoriesKey (categories : list string) : string :=
  String.concat "," (merge_sort codeUnitOrder categories).

(** The name of the cache file of a request; [sha1hex] is the digest of
    the platform. *)
Definition cacheFileName (sha1hex : string -> string)
    (categories : list string) : string :=
  let categoriesHash :=
    String.substring 0 12 (sha1hex (categoriesKey categories)) in
  "satellites-" +:+ categoriesHash +:+ ".json.gz".

(** *** Catalog texts

    Only white space. *)
Fixpoint allWhite (s : string) : bool :=
  match s with
  | EmptyString => true
  | String c s' => isWhiteSpace c && allWhite s'
  end.

Fixpoint noNewline (s : string) : bool :=
  match s with
  | EmptyString => true
  | String c s' => negb (isNewline c) && noNewline s'
  end.

(** A line of a catalog text: no line break inside, and some text. *)
Definition textLine (s : string) : bool := noNewline s && negb (allWhite s).

Definition setLines (set : string * string * string) : list string :=
  let '(name, l1, l2) := set in [name; l1; l2].

(** The text of a list of element sets: three lines each, a line feed
    between lines. *)
Definition tleText (sets : list (string * string * string)) : string :=
  String.concat (String "010" EmptyString) (flat_map setLines sets).

(** The lines taken three at a time; an incomplete last group is left
    out. *)
Fixpoint groups (category : string) (lines : list string) : list TLEData :=
  match lines with
  | a :: b :: c :: rest => tleEntry category [a; b; c] 0 :: groups category rest
  | _ => []
  end.

(** The first line without its leading white space, the last without its
    trailing white space. *)
Definition trimFirst (lines : list string) : list string :=
  match lines with
  | [] => []
  | l :: rest => trimStart l :: rest
  end.

Fixpoint trimLast (lines : list string) : list string :=
  match lines with
  | [] => []
  | [l] => [trimEnd l]
  | l :: rest => l :: trimLast rest
  end.

Definition startsClean (s : string) : bool :=
  match s with
  | EmptyString => true
  | String c _ => negb (isWhiteSpace c)
  end.

Definition sameText (a b : string) : Prop := trim a = trim b.

(** ** Stand-ins for the consumers of the worker *)
Module Sample.

Definition lower (c : ascii) : ascii :=
  let n := nat_of_ascii c in
  if ((65 <=? n) && (n <=? 90))%nat then ascii_of_nat (n + 32) else c.

Fixpoint lowerCase (s : string) : string :=
  match s with
  | EmptyString => EmptyString
  | String c s' => String (lower c) (lowerCase s')
  end.

Fixpoint contains (s t : string) : bool :=
  String.prefix t s
  || match s with
     | EmptyString => false
     | String _ s' => contains s' t
     end.

Definition strings : StringLib :=
  {| toLowerCase := lowerCase; includes := contains |}.

Definition sampleAt (id : string) (altitude : number) (v : bool)
    : SatellitePosition :=
  {| name := "SAT " +:+ id; noradId := id; category := "demo";
     position := {| lat := lit 0; lon := lit 0; alt := altitude |};
     velocity := {| vx := lit 0; vy := lit 7.5; vz := lit 0 |};
     visible := v |}.

(** One sample in each altitude range, one below the ground and one
    without altitude. *)
Definition shells : list SatellitePosition :=
  [sampleAt "1" (lit 400) true; sampleAt "2" (lit 20200) true;
   sampleAt "3" (lit 35786) false; sampleAt "4" (lit (-5)) true;
   sampleAt "5" NaN false].

(** A catalog text as it is served: carriage returns before the line
    feeds, a padded name, an empty line at either end. *)
Definition cr : string := String "013" EmptyString.
Definition lf : string := String "010" EmptyString.

Definition stationSet : string * string * string :=
  ("ISS (ZARYA)             " +:+ cr,
   "1 25544U 98067A   24001.50000000  .00016717  00000-0  10270-3 0  9005"
     +:+ cr,
   "2 25544  51.6400 208.9163 0006317  69.9862  25.2906 15.49815689 12345"
     +:+ cr).

Definition hiddenFilter : FilterState :=
  {| searchTerm := "iss"; fs_category := "all";
     altitudeRange := (lit 0, lit 2000); visibility := VisInvisible;
     showOnlyActive := false |}.

Definition idleHook : HookState :=
  {| hk_satellites := shells; hk_loading := false; hk_error := None;
     hk_lastUpdate := Some (lit 1000) |}.

(** A table with two categories and a server that answers for one of
    them. *)
Definition table (category : string) : option string :=
  if decide (category = "stations") then Some "https://example.org/stations"
  else if decide (category = "weather") then Some "https://example.org/weather"
  else None.

Definition served (url : string) : option string :=
  if decide (url = "https://example.org/stations")
  then Some (lf +:+ tleText [stationSet] +:+ cr +:+ lf)
  else None.

Definition request (sats : list SatelliteData) (t la lo : number)
    : WorkerMessage :=
  {| msg_type := PROPAGATE;
     msg_data := Some {| satellites := Some sats; timestamp := Some t;
                         observerLat := Some la; observerLon := Some lo;
                         observerAlt := None |} |}.

End Sample.

(** A stand-in for [satellite.js] whose propagation moves with the date:
    the object is one kilometre further out for every thousand seconds
    since the epoch. *)
Module Drift.

Definition sgp4 {R : Rounding} (r : Fixture.Rec) (d : Date)
    : PropagateResult :=
  match getTime d with
  | Num t =>
      PositionAndVelocity
        (Some (Fixture.vec (lit 6778 + Num t / lit 1000000) (lit 0) (lit 0)))
        (Some (Fixture.vec (lit 0) (lit 7.5) (lit 0)))
  | _ => PropThrows
  end.

Definition lib {R : Rounding} : SatelliteJs :=
  {| SatRec := Fixture.Rec;
     satrec_no := Fixture.element; satrec_ecco := Fixture.element;
     satrec_inclo := Fixture.element;
     twoline2satrec := Fixture.parse; propagate := sgp4;
     gstime := Fixture.siderealTime; eciToEcf := Fixture.rotate |}.

End Drift.

(** * Properties *)

(** ** Arithmetic of [%] and of the longitude normalisation *)

(** Inequalities between canonical rationals, read over [Q]. *)
Ltac qc_to_q :=
  unfold Qclt, Qcle, Qcminus, Qcplus, Qcopp, Qcmult, Q2Qc in *;
  cbn [this] in *; repeat rewrite Qred_correct in *.

(** Equality of two finite numbers by evaluation. *)
Ltac num_eq := vm_compute; apply (f_equal Num), Qc_is_canon; reflexivity.

Section Remainder.
Local Open Scope Q_scope.

Lemma trunc_nonneg (q : Q) :
  0 <= q ->
  inject_Z (Z.quot (Qnum q) (QDen q)) <= q
  /\ q < inject_Z (Z.quot (Qnum q) (QDen q)) + 1.
Proof.
  destruct q as [n d]. unfold Qle, Qlt, Qplus, inject_Z. simpl.
  intros Hn. rewrite !Z.mul_1_r in *.
  pose proof (Z.quot_rem' n (Z.pos d)) as E.
  pose proof (Z.rem_bound_pos n (Z.pos d) Hn ltac:(lia)) as B.
  nia.
Qed.

Lemma trunc_nonpos (q : Q) :
  q <= 0 ->
  inject_Z (Z.quot (Qnum q) (QDen q)) - 1 < q
  /\ q <= inject_Z (Z.quot (Qnum q) (QDen q)).
Proof.
  destruct q as [n d]. unfold Qle, Qlt, Qminus, Qplus, Qopp, inject_Z. simpl.
  intros Hn. rewrite !Z.mul_1_r in *.
  pose proof (Z.quot_rem' n (Z.pos d)) as E.
  pose proof (Z.rem_bound_pos (- n) (Z.pos d) ltac:(lia) ltac:(lia)) as B.
  rewrite Z.rem_opp_l in B by lia.
  nia.
Qed.

End Remainder.

Lemma rem360_eq (x : Qc) : (Num x %% lit 360)%js = Num (rem360 x).
Proof. reflexivity. Qed.

Lemma rem360_range (x : Qc) :
  (Q2Qc (-360) < rem360 x)%Qc /\ (rem360 x < Q2Qc 360)%Qc
  /\ ((0 <= x)%Qc -> (0 <= rem360 x)%Qc).
Proof.
  unfold rem360, JsNum.Qc_trunc.
  set (q := (x / Q2Qc 360)%Qc).
  assert (Hq : (q == x / 360)%Q).
  { subst q. unfold Qcdiv, Qcmult, Qcinv, Q2Qc. simpl this.
    rewrite !Qred_correct. reflexivity. }
  assert (Hx : (x == 360 * q)%Q) by (rewrite Hq; field).
  clear Hq. generalize dependent (this q). intros q' Hx.
  unfold Qclt, Qcle, Qcminus, Qcplus, Qcopp, Qcmult, Q2Qc. simpl this.
  rewrite !Qred_correct.
  destruct (Qlt_le_dec q' 0) as [Hneg|Hpos].
  - pose proof (trunc_nonpos q' ltac:(lra)) as [B1 B2].
    set (t := inject_Z _) in *.
    repeat rewrite Qred_correct. repeat split; try lra.
  - pose proof (trunc_nonneg q' Hpos) as [B1 B2].
    set (t := inject_Z _) in *.
    repeat rewrite Qred_correct. repeat split; try lra.
Qed.

Section Normalisation.
Context {R : Rounding} (laws : RoundingLaws R).

Lemma round_const (z : Z) :
  Z.abs z <= 2 ^ 53 -> round (Q2Qc (inject_Z z)) = Q2Qc (inject_Z z).
Proof. apply (round_integer R laws). Qed.

Lemma normalizeLon_range (x : Qc) : lonInRange (normalizeLon (Num x)).
Proof.
  unfold normalizeLon, lonInRange.
  change (Num x + lit 180)%js with (Num (round (x + Q2Qc 180)%Qc)).
  set (x1 := round _).
  rewrite rem360_eq.
  destruct (rem360_range x1) as (Hlo1 & Hhi1 & _).
  change (Num (rem360 x1) + lit 360)%js
    with (Num (round (rem360 x1 + Q2Qc 360)%Qc)).
  set (x3 := round _).
  assert (H3 : (0 <= x3)%Qc).
  { replace 0%Qc with (round 0%Qc)
      by (apply (round_const 0); cbv; discriminate).
    apply (round_monotone R laws). revert Hlo1. generalize (rem360 x1).
    intros r. qc_to_q. intros; lra. }
  assert (H3r : round x3 = x3) by apply (round_idempotent R laws).
  rewrite rem360_eq.
  destruct (rem360_range x3) as (_ & Hhi & Hpos). specialize (Hpos H3).
  assert (H4r : round (rem360 x3) = rem360 x3).
  { apply (round_rem R laws); [exact H3r| |reflexivity].
    apply (round_const 360). cbv; discriminate. }
  change (Num (rem360 x3) - lit 180)%js
    with (Num (round (rem360 x3 - Q2Qc 180)%Qc)).
  revert Hhi Hpos H4r. generalize (rem360 x3). intros r Hhi Hpos Hr.
  eexists; split; [reflexivity|].
  destruct (Qclt_le_dec r (Q2Qc 180)) as [Hsmall|Hbig].
  - split.
    + replace (Q2Qc (-180)) with (round (Q2Qc (-180)))
        by (apply (round_const (-180)); cbv; discriminate).
      apply (round_monotone R laws). revert Hpos. qc_to_q. intros; lra.
    + apply Qcle_lt_trans with 0%Qc; [|reflexivity].
      replace 0%Qc with (round 0%Qc)
        by (apply (round_const 0); cbv; discriminate).
      apply (round_monotone R laws). revert Hsmall. qc_to_q. intros; lra.
  - rewrite (round_sterbenz R laws r (Q2Qc 180) Hr).
    + revert Hbig Hhi. qc_to_q. intros; lra.
    + apply (round_const 180). cbv; discriminate.
    + revert Hbig. unfold Qcdiv, Qcinv. qc_to_q. intros Hbig.
      apply Qle_trans with 180%Q; [unfold Qle; simpl; lia|exact Hbig].
    + revert Hhi. qc_to_q. intros; lra.
Qed.

End Normalisation.

Lemma toDegrees_finite {R : Rounding} (a : number) :
  JsNum.isFinite a = true -> exists q, toDegrees a = Num q.
Proof.
  destruct a as [q| | |]; try discriminate. intros _.
  unfold toDegrees, Math_PI, lit. eexists. reflexivity.
Qed.

(** ** The loop and the outcomes of its entries *)

Section Pass.
Context {R : Rounding} (M : MathLib) (L : SatelliteJs).

Local Abbreviation Cache := (gmap string (SatRec L)).
Local Abbreviation State := (LoopState (SatRec L)).

Lemma loopBody_outcome (date : Date) (st : State) (satellite : SatelliteData) :
  loopBody M L date st satellite =
  tally (entryOutcome M L date (parseTLE L (satelliteCache st) satellite).1
           satellite)
        (with_cache st (parseTLE L (satelliteCache st) satellite).2).
Proof.
  unfold loopBody, entryOutcome, stateVector, finite3.
  destruct (parseTLE L (satelliteCache st) satellite) as [[satrec|] c];
    cbn [fst snd]; [|reflexivity].
  destruct (JsNum.isFinite (satrec_no L satrec)),
           (JsNum.isFinite (satrec_ecco L satrec)),
           (JsNum.isFinite (satrec_inclo L satrec));
    cbn [negb orb andb tally]; try reflexivity.
  destruct (propagate L satrec date) as [|[eci|] [vel|]];
    cbn [tally]; try reflexivity.
  - destruct (JsNum.isFinite (vx eci)), (JsNum.isFinite (vy eci)),
             (JsNum.isFinite (vz eci));
      cbn [negb orb andb tally]; try reflexivity.
    set (g := ecefToGeodetic M _ _ _).
    destruct (JsNum.isFinite (latitude g)), (JsNum.isFinite (longitude g)),
             (JsNum.isFinite (height g)); reflexivity.
  - destruct (JsNum.isFinite (vx eci)), (JsNum.isFinite (vy eci)),
             (JsNum.isFinite (vz eci)); reflexivity.
Qed.

Lemma tally_cache (o : Outcome) (st : State) :
  satelliteCache (tally o st) = satelliteCache st.
Proof. destruct o; reflexivity. Qed.

Lemma loop_outcomes (date : Date) (satellites : list SatelliteData) :
  forall st : State,
    let st' := foldl (loopBody M L date) st satellites in
    let os := outcomes M L date (satelliteCache st) satellites in
    positions st' = positions st ++ omap emitted os
    /\ parsedCount st' =
       (parsedCount st + countb (fun o => negb (isParseFailure o)) os)%nat
    /\ propagatedCount st' =
       (propagatedCount st
        + countb (fun o => isTransformFailure o || isEmitted o) os)%nat
    /\ geodeticCount st' = (geodeticCount st + countb isEmitted os)%nat.
Proof.
  induction satellites as [|satellite rest IH]; intros st; cbn zeta.
  - simpl. rewrite app_nil_r. repeat split; lia.
  - simpl foldl. rewrite loopBody_outcome. simpl outcomes.
    destruct (parseTLE L (satelliteCache st) satellite) as [parsed c] eqn:E.
    simpl fst; simpl snd.
    specialize (IH (tally (entryOutcome M L date parsed satellite)
                      (with_cache st c))).
    cbn zeta in IH. rewrite tally_cache in IH. simpl satelliteCache in IH.
    destruct IH as (Hp & Hc1 & Hc2 & Hc3).
    rewrite Hp, Hc1, Hc2, Hc3.
    destruct (entryOutcome M L date parsed satellite); simpl;
      rewrite <- ?app_assoc; simpl; repeat split; lia.
Qed.

Lemma outcomes_length (date : Date) (satellites : list SatelliteData) :
  forall cache : Cache,
    length (outcomes M L date cache satellites) = length satellites.
Proof.
  induction satellites as [|satellite rest IH]; intros cache; simpl.
  - reflexivity.
  - destruct (parseTLE L cache satellite) as [parsed c]. simpl.
    now rewrite IH.
Qed.

Lemma outcomes_partition (os : list Outcome) :
  length os =
  (countb isParseFailure os + countb isPropagationFailure os
   + countb isTransformFailure os + countb isEmitted os)%nat.
Proof.
  induction os as [|o os IH]; simpl; [reflexivity|].
  destruct o; simpl; lia.
Qed.

Lemma countb_parsed (os : list Outcome) :
  (countb (fun o => negb (isParseFailure o)) os + countb isParseFailure os
   = length os)%nat.
Proof. induction os as [|o os IH]; simpl; [|destruct o; simpl]; lia. Qed.

Lemma countb_propagated (os : list Outcome) :
  countb (fun o => isTransformFailure o || isEmitted o) os
  = (countb isTransformFailure os + countb isEmitted os)%nat.
Proof. induction os as [|o os IH]; simpl; [|destruct o; simpl]; lia. Qed.

Lemma omap_emitted_length (os : list Outcome) :
  length (omap emitted os) = countb isEmitted os.
Proof.
  induction os as [|o os IH]; [reflexivity|].
  destruct o; cbn; rewrite <- ?IH; reflexivity.
Qed.

Lemma positions_outcomes (cache : Cache) (satellites : list SatelliteData)
    (timestamp : number) :
  positions (propagateLoop M L cache satellites timestamp)
  = omap emitted (outcomes M L (new_Date timestamp) cache satellites).
Proof.
  unfold propagateLoop.
  destruct (loop_outcomes (new_Date timestamp) satellites (initialState cache))
    as (Hp & _).
  exact Hp.
Qed.

Lemma batch_length_le (cache : Cache) (satellites : list SatelliteData)
    (timestamp observerLat observerLon observerAlt : number) :
  (length (propagateSatellites M L cache satellites timestamp
             observerLat observerLon observerAlt).1
   <= length satellites)%nat.
Proof.
  unfold propagateSatellites. cbn [fst].
  rewrite positions_outcomes, omap_emitted_length.
  rewrite <- (outcomes_length (new_Date timestamp) satellites cache).
  rewrite (outcomes_partition (outcomes _ _ _ _ _)). lia.
Qed.

Lemma outcomes_elem (date : Date) (satellites : list SatelliteData) :
  forall (cache : Cache) (o : Outcome),
    o ∈ outcomes M L date cache satellites ->
    exists parsed satellite,
      satellite ∈ satellites /\ o = entryOutcome M L date parsed satellite.
Proof.
  induction satellites as [|satellite rest IH]; intros cache o; simpl.
  - intros H. inversion H.
  - destruct (parseTLE L cache satellite) as [parsed c].
    intros [->|H]%elem_of_cons.
    + exists parsed, satellite. split; [left|reflexivity].
    + destruct (IH c o H) as (parsed' & sat' & Hin & ->).
      exists parsed', sat'. split; [now right|reflexivity].
Qed.

Lemma Emitted_inj (a b : SatellitePosition) : Emitted a = Emitted b -> a = b.
Proof. now intros [=]. Qed.

Lemma entryOutcome_emitted (date : Date) (parsed : option (SatRec L))
    (satellite : SatelliteData) (s : SatellitePosition) :
  entryOutcome M L date parsed satellite = Emitted s ->
  visible s = true
  /\ exists q, lon (position s) = normalizeLon (Num q).
Proof.
  unfold entryOutcome.
  destruct parsed as [satrec|]; [|discriminate].
  destruct (_ && _); [|discriminate].
  destruct (stateVector _) as [[eci vel]|]; [|discriminate].
  set (g := ecefToGeodetic M _ _ _).
  destruct (JsNum.isFinite (latitude g)); [|discriminate].
  destruct (JsNum.isFinite (longitude g)) eqn:Hlon; [|discriminate].
  destruct (JsNum.isFinite (height g)); [|discriminate].
  cbn [andb]. intros E%Emitted_inj. subst s. cbn [visible position lon].
  split; [reflexivity|].
  destruct (toDegrees_finite _ Hlon) as [q ->]. now exists q.
Qed.

Lemma sample_outcome (cache : Cache) (satellites : list SatelliteData)
    (timestamp observerLat observerLon observerAlt : number)
    (s : SatellitePosition) :
  s ∈ (propagateSatellites M L cache satellites timestamp
         observerLat observerLon observerAlt).1 ->
  exists parsed satellite,
    satellite ∈ satellites
    /\ entryOutcome M L (new_Date timestamp) parsed satellite = Emitted s.
Proof.
  unfold propagateSatellites. cbn [fst]. rewrite positions_outcomes.
  intros (o & Ho & Hs)%list_elem_of_omap.
  destruct o; try discriminate. injection Hs as ->.
  destruct (outcomes_elem _ _ _ _ Ho) as (parsed & satellite & Hin & E).
  eauto.
Qed.

(** C1, amended.  A pass over [N] entries of which [p] fail parsing, [g]
    fail the record check or the propagation and [t] fail the geodetic
    transform emits exactly [N - p - g - t] samples.  The three counters of
    the pass count the entries that survive each stage: [parsedCount] is
    [N - p], [propagatedCount] is [N - p - g] and [geodeticCount] is
    [N - p - g - t]. *)
Theorem conservation_of_entries (cache : Cache)
    (satellites : list SatelliteData)
    (timestamp observerLat observerLon observerAlt : number) :
  let st := propagateLoop M L cache satellites timestamp in
  let os := outcomes M L (new_Date timestamp) cache satellites in
  let N := length satellites in
  let p := countb isParseFailure os in
  let g := countb isPropagationFailure os in
  let t := countb isTransformFailure os in
  (p + g + t <= N)%nat
  /\ length (propagateSatellites M L cache satellites timestamp
               observerLat observerLon observerAlt).1
     = (N - p - g - t)%nat
  /\ parsedCount st = (N - p)%nat
  /\ propagatedCount st = (N - p - g)%nat
  /\ geodeticCount st = (N - p - g - t)%nat.
Proof.
  intros st os N p g t.
  destruct (loop_outcomes (new_Date timestamp) satellites (initialState cache))
    as (Hp & Hc1 & Hc2 & Hc3).
  cbn [initialState positions parsedCount propagatedCount geodeticCount
       satelliteCache app Nat.add] in Hp, Hc1, Hc2, Hc3.
  pose proof (outcomes_partition os) as Hpart.
  pose proof (countb_parsed os) as Hparsed.
  pose proof (countb_propagated os) as Hprop.
  pose proof (omap_emitted_length os) as Hlen.
  pose proof (outcomes_length (new_Date timestamp) satellites cache) as HN.
  unfold propagateSatellites. cbn [fst].
  subst st os N p g t. unfold propagateLoop.
  rewrite Hp, Hc1, Hc2, Hc3, Hlen.
  repeat split; lia.
Qed.

(** C6.  Whatever the catalog, the instant and the observer, every sample
    of the emitted batch is marked visible, and the batch does not depend
    on the observer: the outcome of the visibility rule has no part in
    it. *)
Theorem every_sample_visible (cache : Cache) (satellites : list SatelliteData)
    (timestamp observerLat observerLon observerAlt : number) :
  Forall (fun s => visible s = true)
    (propagateSatellites M L cache satellites timestamp
       observerLat observerLon observerAlt).1
  /\ (forall lat' lon' alt' : number,
        propagateSatellites M L cache satellites timestamp lat' lon' alt'
        = propagateSatellites M L cache satellites timestamp
            observerLat observerLon observerAlt).
Proof.
  split; [|reflexivity].
  apply Forall_forall. intros s Hs.
  destruct (sample_outcome _ _ _ _ _ _ _ Hs) as (parsed & satellite & _ & E).
  exact (proj1 (entryOutcome_emitted _ _ _ _ E)).
Qed.

(** C4.  The longitude of every sample of every emitted batch is a finite
    number of degrees in the half-open interval from -180 to 180, for every
    rounding of the arithmetic that obeys [RoundingLaws]. *)
Theorem longitude_in_range (laws : RoundingLaws R) (cache : Cache)
    (satellites : list SatelliteData)
    (timestamp observerLat observerLon observerAlt : number) :
  Forall (fun s => lonInRange (lon (position s)))
    (propagateSatellites M L cache satellites timestamp
       observerLat observerLon observerAlt).1.
Proof.
  apply Forall_forall. intros s Hs.
  destruct (sample_outcome _ _ _ _ _ _ _ Hs) as (parsed & satellite & _ & E).
  destruct (entryOutcome_emitted _ _ _ _ E) as (_ & q & ->).
  now apply normalizeLon_range.
Qed.

End Pass.

(** ** The message handler *)

Section Messages.
Context {R : Rounding} (M : MathLib) (L : SatelliteJs).

Local Abbreviation Cache := (gmap string (SatRec L)).

Lemma or_default_zero (x : option number) (now : number) :
  or_default x now = Num 0%Qc -> now = Num 0%Qc.
Proof.
  unfold or_default. destruct x as [[q| | |]|]; simpl; try discriminate; auto.
  destruct (JsNum.Qc_is0 q) eqn:E; simpl; auto.
  intros [= ->]. discriminate.
Qed.

(** C2, amended.  A PROPAGATE message is answered by an Error exactly
    when its payload or the catalog in it is missing, with the text
    [No satellite data provided].  When the catalog is present the reply
    is a Positions message, whatever the entries contain, with at most as
    many samples as the catalog has entries: an empty catalog yields a
    Positions reply with zero samples. *)
Theorem propagate_reply (now : number) (cache : Cache)
    (data : option MessageData) :
  let reply :=
    (onmessage M L now cache {| msg_type := PROPAGATE; msg_data := data |}).1 in
  match data with
  | None => reply = ERROR "No satellite data provided"
  | Some d =>
      match satellites d with
      | None => reply = ERROR "No satellite data provided"
      | Some sats =>
          exists samples,
            reply = POSITIONS {| pd_positions := samples;
                                 pd_timestamp := or_default (timestamp d) now;
                                 pd_count := length samples |}
            /\ (length samples <= length sats)%nat
      end
  end.
Proof.
  unfold onmessage. cbn [msg_type msg_data].
  destruct data as [d|]; [|reflexivity].
  destruct (satellites d) as [sats|]; [|reflexivity].
  set (ts := or_default (timestamp d) now).
  set (a := or_default (observerLat d) _).
  set (b := or_default (observerLon d) _).
  set (c := or_default (observerAlt d) _).
  pose proof (batch_length_le M L cache sats ts a b c) as Hle.
  destruct (propagateSatellites M L cache sats ts a b c) as [samples cache'].
  cbn [fst] in *. exists samples. split; [reflexivity|exact Hle].
Qed.

Lemma propagateSatellites_date (cache : Cache) (sats : list SatelliteData)
    (t t' a b c a' b' c' : number) :
  new_Date t = new_Date t' ->
  propagateSatellites M L cache sats t a b c
  = propagateSatellites M L cache sats t' a' b' c'.
Proof.
  intros H. unfold propagateSatellites, propagateLoop. cbn zeta.
  now rewrite H.
Qed.

(** C10, amended.  A PROPAGATE message without a timestamp is propagated
    at the wall-clock time [now], which the Positions reply reports, and
    a timestamp equal to 0 is handled as a missing one.  Any other
    timestamp that is a number or an infinity is used as the instant and
    reported as sent.  The pass reads the instant through the date made
    of it only, so two timestamps with the same date give the same
    batch: the batch of the instant 0 is obtained with any timestamp that
    [new Date] truncates to 0.  No reply reports the instant 0 unless the
    wall clock itself reads 0. *)
Theorem epoch_timestamp_replaced (now : number) (cache : Cache)
    (sats : list SatelliteData) (oLat oLon oAlt : option number) :
  let msg ts :=
    {| msg_type := PROPAGATE;
       msg_data := Some {| satellites := Some sats; timestamp := ts;
                           observerLat := oLat; observerLon := oLon;
                           observerAlt := oAlt |} |} in
  let batch t :=
    (propagateSatellites M L cache sats t (or_default oLat (lit 0))
       (or_default oLon (lit 0)) (or_default oAlt (lit 0))).1 in
  (onmessage M L now cache (msg None)).1
    = POSITIONS {| pd_positions := batch now; pd_timestamp := now;
                   pd_count := length (batch now) |}
  /\ onmessage M L now cache (msg (Some (lit 0)))
     = onmessage M L now cache (msg None)
  /\ (forall t, JsNum.truthy t = true ->
        (onmessage M L now cache (msg (Some t))).1
        = POSITIONS {| pd_positions := batch t; pd_timestamp := t;
                       pd_count := length (batch t) |})
  /\ (forall t t', new_Date t = new_Date t' -> batch t = batch t')
  /\ (forall ts d,
        (onmessage M L now cache (msg ts)).1 = POSITIONS d ->
        pd_timestamp d = lit 0 -> now = lit 0).
Proof.
  intros msg batch. subst msg batch. unfold onmessage.
  cbn [msg_type msg_data satellites timestamp observerLat observerLon
       observerAlt].
  change (or_default (Some (lit 0)) now) with now.
  change (or_default None now) with now.
  set (a := or_default oLat _). set (b := or_default oLon _).
  set (c := or_default oAlt _).
  split; [|split; [|split; [|split]]].
  - destruct (propagateSatellites M L cache sats now a b c); reflexivity.
  - reflexivity.
  - intros t Ht.
    assert (E : or_default (Some t) now = t)
      by (unfold or_default; now rewrite Ht).
    rewrite E.
    destruct (propagateSatellites M L cache sats t a b c); reflexivity.
  - intros t t' H.
    now rewrite (propagateSatellites_date cache sats t t' a b c a b c H).
  - intros ts d.
    destruct (propagateSatellites M L cache sats _ a b c) as [samples cache'].
    cbn [fst]. intros [= <-]. cbn [pd_timestamp].
    apply or_default_zero.
Qed.

End Messages.

(** ** The inversion and the visibility rule *)

Section GeometryFacts.
Context {R : Rounding} (M : MathLib).

Lemma latitudeLoop_iter (p z : number) (i : nat) (lat : number) :
  latitudeLoop M p z i lat = Nat.iter (5 - i) (refineLatitude M p z) lat.
Proof.
  funelim (latitudeLoop M p z i lat).
  - match goal with IH : latitudeLoop _ _ _ _ _ = Nat.iter _ _ _ |- _ =>
      rewrite IH end.
    replace (5 - i)%nat with (S (5 - S i)) by lia.
    now rewrite Nat.iter_succ_r.
  - replace (5 - i)%nat with 0%nat by lia. reflexivity.
Qed.

Lemma refineLatitude_refinement (p z lat : number) :
  refineLatitude M p z lat = Inversion.refinement M p z lat.
Proof. reflexivity. Qed.

Lemma iter_ext {A : Type} (f g : A -> A) (n : nat) (a : A) :
  (forall x, f x = g x) -> Nat.iter n f a = Nat.iter n g a.
Proof.
  intros H. induction n as [|n IH]; [reflexivity|].
  rewrite !Nat.iter_succ, IH. apply H.
Qed.

(** C5.  The inversion computes what the specification describes, on the
    WGS84 ellipsoid with semi-major axis 6378.137 km and flattening
    1/298.257223563: the latitude starts from [atan2(z, p (1 - e2))] with
    [p = sqrt(x^2 + y^2)] and is then refined exactly five times, each
    time through the radius of curvature [N] and the altitude at the
    current latitude, whatever the values are (the loop tests its counter
    only); the height is the altitude at the last latitude.  The
    latitude, the longitude and the height of the result are stated one
    by one as well. *)
Theorem ecefToGeodetic_five_refinements (x y z : number) :
  let p := Math_sqrt M (x * x + y * y)%js in
  let lat5 :=
    Inversion.refinement M p z
      (Inversion.refinement M p z
         (Inversion.refinement M p z
            (Inversion.refinement M p z
               (Inversion.refinement M p z
                  (Inversion.initialLatitude M p z))))) in
  ecefToGeodetic M x y z = ecefToGeodetic_spec M x y z
  /\ latitude (ecefToGeodetic M x y z) = lat5
  /\ longitude (ecefToGeodetic M x y z) = Math_atan2 M y x
  /\ height (ecefToGeodetic M x y z)
     = (p / Math_cos M lat5 - Inversion.curvatureRadius M lat5)%js.
Proof.
  intros p lat5.
  assert (E : ecefToGeodetic M x y z = ecefToGeodetic_spec M x y z).
  { unfold ecefToGeodetic, ecefToGeodetic_spec.
    rewrite latitudeLoop_iter.
    rewrite (iter_ext _ _ _ _ (refineLatitude_refinement _ z)).
    reflexivity. }
  split; [exact E|]. rewrite E. repeat split.
Qed.

Lemma isSatelliteVisible_haversine (pos : Position)
    (observerLat observerLon observerAlt : number) :
  isSatelliteVisible M pos observerLat observerLon observerAlt =
  if (alt pos <? lit 200)%js then false
  else (haversineKm M observerLat observerLon (lat pos) (lon pos)
        <? lit 2000)%js.
Proof. reflexivity. Qed.

Section SamePoint.
Context (rlaws : RoundingLaws R) (laws : MathLaws M).

Lemma round_zero : round 0%Qc = 0%Qc.
Proof. apply (round_integer R rlaws 0). cbv; discriminate. Qed.

Lemma round_one : round 1%Qc = 1%Qc.
Proof. apply (round_integer R rlaws 1). cbv; discriminate. Qed.

Lemma mul_zero_r (q : Qc) : (Num q * Num 0%Qc)%js = Num 0%Qc.
Proof. unfold JsNum.mul. now rewrite Qcmult_0_r, round_zero. Qed.

Lemma half_of_difference (q : Qc) :
  ((Num q - Num q) / lit 2)%js = Num 0%Qc.
Proof.
  unfold JsNum.sub, JsNum.neg, JsNum.add, JsNum.div, lit.
  change (JsNum.Qc_is0 (Q2Qc 2)) with false. cbv iota.
  rewrite Qcplus_opp_r, round_zero. unfold Qcdiv.
  now rewrite Qcmult_0_l, round_zero.
Qed.

Lemma radians_finite (q : Qc) :
  exists a, (Num q * Math_PI / lit 180)%js = Num a.
Proof. eexists. reflexivity. Qed.

Lemma haversine_same_point (la lo : Qc) :
  haversineKm M (Num la) (Num lo) (Num la) (Num lo) = Num 0%Qc.
Proof.
  unfold haversineKm.
  destruct (radians_finite la) as [a ->], (radians_finite lo) as [b ->].
  rewrite !half_of_difference, (sin_zero M laws).
  pose proof (cos_finite M laws a) as Hc.
  destruct (Math_cos M (Num a)) as [c| | |]; try discriminate.
  change (Num c * Num c)%js with (Num (round (c * c)%Qc)).
  rewrite !mul_zero_r.
  assert (Ha : (Num 0%Qc + Num 0%Qc)%js = Num 0%Qc).
  { unfold JsNum.add. now rewrite Qcplus_0_l, round_zero. }
  rewrite Ha, (sqrt_zero M laws).
  assert (H1 : (lit 1 - Num 0%Qc)%js = Num 1%Qc).
  { unfold JsNum.sub, JsNum.neg, JsNum.add, lit.
    change (- 0)%Qc with 0%Qc. now rewrite Qcplus_0_r, round_one. }
  rewrite H1, (sqrt_one M laws), (atan2_zero_one M laws).
  unfold lit. now rewrite !mul_zero_r.
Qed.

End SamePoint.

(** C7.  [isSatelliteVisible] answers [false] when the altitude is
    below 200 km, whatever the observer, and otherwise answers whether the
    haversine distance on a sphere of radius 6371 km between the observer
    and the point below the object is less than 2000 km.  An object at
    exactly 200 km straight above the observer is visible, for an observer
    whose coordinates are inside the range where the source's arithmetic
    does not overflow (every latitude and longitude in degrees is); one at
    199.999 km is not, wherever it is. *)
Theorem visibility_rule (rlaws : RoundingLaws R) (laws : MathLaws M) :
  (forall pos observerLat observerLon observerAlt,
      isSatelliteVisible M pos observerLat observerLon observerAlt =
      if (alt pos <? lit 200)%js then false
      else (haversineKm M observerLat observerLon (lat pos) (lon pos)
            <? lit 2000)%js)
  /\ (forall (la lo : Qc) (observerAlt : number),
        inRangeOfDoubles la -> inRangeOfDoubles lo ->
        isSatelliteVisible M {| lat := Num la; lon := Num lo; alt := lit 200 |}
          (Num la) (Num lo) observerAlt = true)
  /\ (forall la lo observerLat observerLon observerAlt,
        isSatelliteVisible M {| lat := la; lon := lo; alt := lit 199.999 |}
          observerLat observerLon observerAlt = false).
Proof.
  split; [|split].
  - intros. apply isSatelliteVisible_haversine.
  - intros la lo observerAlt _ _. rewrite isSatelliteVisible_haversine.
    cbn [alt lat lon]. rewrite (haversine_same_point rlaws laws). reflexivity.
  - intros. rewrite isSatelliteVisible_haversine. reflexivity.
Qed.

End GeometryFacts.

(** ** The cache of parsed records *)

Lemma string_app_inj_length (s1 s2 t1 t2 : string) :
  String.length s1 = String.length s2 ->
  s1 +:+ t1 = s2 +:+ t2 -> s1 = s2 /\ t1 = t2.
Proof.
  revert s2. induction s1 as [|a s1 IH]; intros [|b s2]; simpl;
    try discriminate.
  - auto.
  - intros [= Hlen] [= -> Happ]. destruct (IH _ Hlen Happ) as [-> ->]. auto.
Qed.

Lemma cacheKey_inj (a b : SatelliteData) :
  sd_noradId a = sd_noradId b ->
  String.length (line1 (tle a)) = String.length (line1 (tle b)) ->
  cacheKey a = cacheKey b -> tle a = tle b.
Proof.
  unfold cacheKey. intros Hid Hlen Hkey. rewrite Hid in Hkey.
  apply (inj (String.app _)) in Hkey. simpl in Hkey.
  injection Hkey as Hkey.
  destruct (string_app_inj_length _ _ _ _ Hlen Hkey) as [H1 H2].
  simpl in H2. injection H2 as H2.
  destruct (tle a) as [a1 a2], (tle b) as [b1 b2]; simpl in *.
  change (a2 = b2) in H2. congruence.
Qed.

Section CacheFacts.
Context (L : SatelliteJs).
Local Abbreviation Cache := (gmap string (SatRec L)).

Lemma parseTLE_Some (cache c1 : Cache) (sat : SatelliteData) (r : SatRec L) :
  parseTLE L cache sat = (Some r, c1) ->
  c1 !! cacheKey sat = Some r
  /\ (forall k, k <> cacheKey sat -> c1 !! k = cache !! k)
  /\ (forall k v, cache !! k = Some v -> c1 !! k = Some v).
Proof.
  unfold parseTLE.
  destruct (cache !! cacheKey sat) as [r0|] eqn:E.
  - intros [= <- <-]. auto.
  - destruct (twoline2satrec L _ _) as [r0|]; [|discriminate].
    intros [= <- <-]. split; [apply lookup_insert_eq|]. split.
    + intros k Hk. now apply lookup_insert_ne.
    + intros k v Hk. rewrite lookup_insert_ne; [assumption|congruence].
Qed.

(** C3, amended.  When a call of the parser has returned a record for
    [(identity, line1, line2)], a second call with the same tuple returns
    that record from the cache, whatever the parser would answer, and leaves
    the cache as it is.  A call with the same identity and other line text,
    the first line of the same length, is answered independently of the old
    record: when its key is new, by parsing the new text, whose record is
    stored under the new key.  The old record is not evicted: it stays in
    the cache under its own key. *)
Theorem cache_hit_and_fresh_key (cache c1 : Cache) (sat sat' : SatelliteData)
    (r : SatRec L) :
  parseTLE L cache sat = (Some r, c1) ->
  (forall f, parseTLE (with_parser L f) c1 sat = (Some r, c1))
  /\ (sd_noradId sat' = sd_noradId sat ->
      String.length (line1 (tle sat')) = String.length (line1 (tle sat)) ->
      tle sat' <> tle sat ->
      c1 !! cacheKey sat' = cache !! cacheKey sat'
      /\ (cache !! cacheKey sat' = None ->
          parseTLE L c1 sat' =
          let fresh :=
            twoline2satrec L (line1 (tle sat')) (line2 (tle sat')) in
          (fresh,
           match fresh with
           | Some r' => <[cacheKey sat' := r']> c1
           | None => c1
           end))
      /\ (parseTLE L c1 sat').2 !! cacheKey sat = Some r).
Proof.
  intros Hparse.
  destruct (parseTLE_Some _ _ _ _ Hparse) as (Hhit & Hother & Hkeep).
  split.
  - intros f. unfold parseTLE. cbn zeta.
    change (SatRec (with_parser L f)) with (SatRec L).
    now rewrite Hhit.
  - intros Hid Hlen Htle.
    assert (Hkey : cacheKey sat' <> cacheKey sat).
    { intros E. apply Htle. now apply cacheKey_inj. }
    split; [now apply Hother|]. split.
    + intros Hnew. unfold parseTLE. cbn zeta. rewrite (Hother _ Hkey), Hnew. now destruct (twoline2satrec L _ _).
    + unfold parseTLE. cbn zeta.
      destruct (c1 !! cacheKey sat'); [exact Hhit|].
      destruct (twoline2satrec L _ _); [|exact Hhit].
      cbn [snd]. rewrite lookup_insert_ne; [exact Hhit|congruence].
Qed.

End CacheFacts.

(** ** Two passes over one catalog *)

Section Determinism.
Context {R : Rounding} (M : MathLib) (L : SatelliteJs).
Local Abbreviation Cache := (gmap string (SatRec L)).
Local Abbreviation State := (LoopState (SatRec L)).


Lemma failuresAgree_tail (a : SatelliteData) (rest : list SatelliteData) :
  failuresAgree L (a :: rest) -> failuresAgree L rest.
Proof. intros H x y Hx Hy. apply H; now right. Qed.



Lemma loop_cache (date : Date) (satellites : list SatelliteData) :
  forall st : State,
    satelliteCache (foldl (loopBody M L date) st satellites)
    = cacheAfter (satelliteCache st) satellites.
Proof.
  induction satellites as [|satellite rest IH]; intros st; [reflexivity|].
  simpl foldl. rewrite IH, loopBody_outcome, tally_cache. reflexivity.
Qed.

Lemma parseTLE_keeps (cache : Cache) (satellite : SatelliteData)
    (k : string) (v : SatRec L) :
  cache !! k = Some v -> (parseTLE L cache satellite).2 !! k = Some v.
Proof.
  intros Hk. unfold parseTLE. cbn zeta.
  destruct (cache !! cacheKey satellite) eqn:E; [exact Hk|].
  destruct (twoline2satrec L _ _); [|exact Hk].
  cbn [snd]. rewrite lookup_insert_ne; [exact Hk|congruence].
Qed.

Lemma cacheAfter_keeps (satellites : list SatelliteData) :
  forall (cache : Cache) (k : string) (v : SatRec L),
    cache !! k = Some v -> cacheAfter cache satellites !! k = Some v.
Proof.
  induction satellites as [|satellite rest IH]; intros cache k v Hk;
    [exact Hk|].
  apply IH. now apply parseTLE_keeps.
Qed.

Lemma parseTLE_hit (cache : Cache) (satellite : SatelliteData) (r : SatRec L) :
  cache !! cacheKey satellite = Some r ->
  parseTLE L cache satellite = (Some r, cache).
Proof. intros H. unfold parseTLE. cbn zeta. now rewrite H. Qed.

Lemma parseTLE_fail (cache : Cache) (satellite : SatelliteData) :
  cache !! cacheKey satellite = None ->
  twoline2satrec L (line1 (tle satellite)) (line2 (tle satellite)) = None ->
  parseTLE L cache satellite = (None, cache).
Proof. intros H1 H2. unfold parseTLE. cbn zeta. now rewrite H1, H2. Qed.

Lemma parseTLE_cases (cache : Cache) (satellite : SatelliteData) :
  (exists r, parseTLE L cache satellite
             = (Some r, (parseTLE L cache satellite).2)
             /\ (parseTLE L cache satellite).2 !! cacheKey satellite = Some r)
  \/ (parseTLE L cache satellite = (None, cache)
      /\ cache !! cacheKey satellite = None
      /\ twoline2satrec L (line1 (tle satellite)) (line2 (tle satellite))
         = None).
Proof.
  unfold parseTLE. cbn zeta.
  destruct (cache !! cacheKey satellite) as [r|] eqn:E.
  - left. exists r. split; [reflexivity|exact E].
  - destruct (twoline2satrec L _ _) as [r|].
    + left. exists r. split; [reflexivity|]. cbn [snd]. apply lookup_insert_eq.
    + right. auto.
Qed.

Lemma cacheAfter_absent (satellites : list SatelliteData) :
  forall (cache : Cache) (k : string),
    cache !! k = None ->
    (forall s, s ∈ satellites -> cacheKey s = k ->
       twoline2satrec L (line1 (tle s)) (line2 (tle s)) = None) ->
    cacheAfter cache satellites !! k = None.
Proof.
  induction satellites as [|satellite rest IH]; intros cache k Hk Hfail;
    [exact Hk|].
  simpl. apply IH.
  - unfold parseTLE. cbn zeta.
    destruct (cache !! cacheKey satellite) eqn:E; [exact Hk|].
    destruct (twoline2satrec L _ _) as [r|] eqn:P; [|exact Hk].
    cbn [snd]. rewrite lookup_insert_ne; [exact Hk|].
    intros Heq. rewrite (Hfail satellite) in P; [discriminate|left|exact Heq].
  - intros s Hs. apply Hfail. now right.
Qed.

(** Once the catalog has been seen, every entry resolves as it did during
    the pass, and resolving it leaves the cache alone. *)
Lemma first_pass_settles (date : Date) (satellites : list SatelliteData) :
  failuresAgree L satellites ->
  forall cache : Cache,
    let c1 := cacheAfter cache satellites in
    (forall s, s ∈ satellites -> (parseTLE L c1 s).2 = c1)
    /\ outcomes M L date cache satellites
       = map (fun s => entryOutcome M L date (parseTLE L c1 s).1 s) satellites.
Proof.
  induction satellites as [|satellite rest IH]; intros Hcons cache c1.
  - split; [intros s Hs; inversion Hs | reflexivity].
  - specialize (IH (failuresAgree_tail _ _ Hcons)
                   (parseTLE L cache satellite).2).
    cbn zeta in IH. fold (cacheAfter cache (satellite :: rest)) in IH.
    change (cacheAfter (parseTLE L cache satellite).2 rest) with c1 in IH.
    destruct IH as (IHA & IHB).
    assert (Hhead : parseTLE L c1 satellite
                    = ((parseTLE L cache satellite).1, c1)).
    { destruct (parseTLE_cases cache satellite)
        as [(r & Hr & Hin)|(Hr & Hnone & Hfail)].
      - rewrite Hr. cbn [fst]. apply parseTLE_hit.
        subst c1. simpl. now apply cacheAfter_keeps.
      - rewrite Hr. cbn [fst]. apply parseTLE_fail; [|exact Hfail].
        subst c1. simpl. rewrite Hr. cbn [snd].
        apply cacheAfter_absent; [exact Hnone|].
        intros s Hs Hkey.
        apply (Hcons satellite s); [left|now right|now symmetry|exact Hfail]. }
    split.
    + intros s [->|Hs]%elem_of_cons; [now rewrite Hhead | now apply IHA].
    + simpl outcomes.
      destruct (parseTLE L cache satellite) as [parsed c'] eqn:E.
      cbn [fst snd] in *. simpl map. rewrite Hhead. cbn [fst].
      f_equal. exact IHB.
Qed.

Lemma settled_pass (date : Date) (satellites : list SatelliteData) :
  forall cache : Cache,
    (forall s, s ∈ satellites -> (parseTLE L cache s).2 = cache) ->
    outcomes M L date cache satellites
    = map (fun s => entryOutcome M L date (parseTLE L cache s).1 s) satellites
    /\ cacheAfter cache satellites = cache.
Proof.
  induction satellites as [|satellite rest IH]; intros cache Hfix;
    [split; reflexivity|].
  assert (Hhead : (parseTLE L cache satellite).2 = cache)
    by (apply Hfix; left).
  destruct (IH cache) as (IHo & IHc); [intros s Hs; apply Hfix; now right|].
  split.
  - simpl. destruct (parseTLE L cache satellite) as [parsed c'] eqn:E.
    cbn [fst snd] in *. subst c'. now rewrite IHo.
  - simpl. now rewrite Hhead.
Qed.

Lemma propagateSatellites_outcomes (cache : Cache)
    (satellites : list SatelliteData)
    (timestamp observerLat observerLon observerAlt : number) :
  propagateSatellites M L cache satellites timestamp
    observerLat observerLon observerAlt
  = (omap emitted (outcomes M L (new_Date timestamp) cache satellites),
     cacheAfter cache satellites).
Proof.
  unfold propagateSatellites. rewrite positions_outcomes.
  unfold propagateLoop. now rewrite loop_cache.
Qed.


End Determinism.

(** ** The checks on the propagation result *)

Section PropagationCheck.
Context {R : Rounding} (M : MathLib) (L : SatelliteJs).
Local Abbreviation Cache := (gmap string (SatRec L)).
Local Abbreviation State := (LoopState (SatRec L)).

Lemma stateVector_Some (r : PropagateResult) (eci vel : Vec3) :
  stateVector r = Some (eci, vel) ->
  r = PositionAndVelocity (Some eci) (Some vel) /\ finite3 eci = true.
Proof.
  destruct r as [|[p|] [v|]]; simpl; try discriminate.
  destruct (finite3 p) eqn:E; [|discriminate]. now intros [= <- <-].
Qed.

Lemma entryOutcome_velocity (date : Date) (parsed : option (SatRec L))
    (satellite : SatelliteData) (s : SatellitePosition) :
  entryOutcome M L date parsed satellite = Emitted s ->
  exists satrec eci vel,
    parsed = Some satrec
    /\ propagate L satrec date = PositionAndVelocity (Some eci) (Some vel)
    /\ finite3 eci = true
    /\ velocity s =
       {| vx := vx (eciToEcf L vel (gstime L date));
          vy := vy (eciToEcf L vel (gstime L date));
          vz := vz (eciToEcf L vel (gstime L date)) |}.
Proof.
  unfold entryOutcome.
  destruct parsed as [satrec|]; [|discriminate].
  destruct (_ && _); [|discriminate].
  destruct (stateVector _) as [[eci vel]|] eqn:Hsv; [|discriminate].
  apply stateVector_Some in Hsv as [Hr Hfin].
  set (g := ecefToGeodetic M _ _ _).
  destruct (_ && _); [|discriminate].
  intros E%Emitted_inj. subst s. cbn [velocity].
  exists satrec, eci, vel. auto.
Qed.

(** C8, amended.  An entry whose propagation raises, returns no
    position, returns a position with a non-finite component or returns no
    velocity is skipped: no sample is pushed for it and it is not counted
    as propagated.  The components of the velocity are not examined: every
    emitted sample comes from a propagation with a finite position and a
    velocity, and carries that velocity rotated into the Earth-fixed frame
    as it is. *)
Theorem propagation_check (date : Date) :
  (forall (st : State) (satellite : SatelliteData) (satrec : SatRec L),
      (parseTLE L (satelliteCache st) satellite).1 = Some satrec ->
      match propagate L satrec date with
      | PropThrows => True
      | PositionAndVelocity None _ => True
      | PositionAndVelocity (Some eci) vel =>
          finite3 eci = false \/ vel = None
      end ->
      let st' := loopBody M L date st satellite in
      positions st' = positions st
      /\ propagatedCount st' = propagatedCount st
      /\ geodeticCount st' = geodeticCount st)
  /\ (forall (cache : Cache) (satellites : list SatelliteData)
        (observerLat observerLon observerAlt timestamp : number)
        (s : SatellitePosition),
        date = new_Date timestamp ->
        s ∈ (propagateSatellites M L cache satellites timestamp
               observerLat observerLon observerAlt).1 ->
        exists satrec eci vel,
          propagate L satrec date = PositionAndVelocity (Some eci) (Some vel)
          /\ finite3 eci = true
          /\ velocity s =
             {| vx := vx (eciToEcf L vel (gstime L date));
                vy := vy (eciToEcf L vel (gstime L date));
                vz := vz (eciToEcf L vel (gstime L date)) |}).
Proof.
  split.
  - intros st satellite satrec Hparsed Hbad st'. subst st'.
    rewrite loopBody_outcome, Hparsed. unfold entryOutcome.
    assert (Hsv : stateVector (propagate L satrec date) = None).
    { destruct (propagate L satrec date) as [|[eci|] [vel|]]; simpl; auto.
      destruct Hbad as [->|[=]]. reflexivity. }
    rewrite Hsv. destruct (_ && _); cbn [tally]; auto.
  - intros cache satellites observerLat observerLon observerAlt timestamp s
           -> Hs.
    destruct (sample_outcome M L _ _ _ _ _ _ _ Hs)
      as (parsed & satellite & _ & E).
    destruct (entryOutcome_velocity _ _ _ _ E)
      as (satrec & eci & vel & _ & H1 & H2 & H3).
    exists satrec, eci, vel. auto.
Qed.

End PropagationCheck.

(** ** The batch and the cache over a whole pass *)

Section BatchFacts.
Context {R : Rounding} (M : MathLib) (L : SatelliteJs).
Local Abbreviation Cache := (gmap string (SatRec L)).

Lemma entryOutcome_identity (date : Date) (parsed : option (SatRec L))
    (satellite : SatelliteData) (s : SatellitePosition) :
  entryOutcome M L date parsed satellite = Emitted s ->
  sampleIdentity s = entryIdentity satellite.
Proof.
  unfold entryOutcome.
  destruct parsed as [satrec|]; [|discriminate].
  destruct (_ && _); [|discriminate].
  destruct (stateVector _) as [[eci vel]|]; [|discriminate].
  set (g := ecefToGeodetic M _ _ _).
  destruct (_ && _); [|discriminate].
  intros E%Emitted_inj. subst s. reflexivity.
Qed.

Lemma emitted_in_order (date : Date) (satellites : list SatelliteData) :
  forall cache : Cache,
    map sampleIdentity (omap emitted (outcomes M L date cache satellites))
    `sublist_of` map entryIdentity satellites.
Proof.
  induction satellites as [|satellite rest IH]; intros cache; simpl.
  - constructor.
  - destruct (parseTLE L cache satellite) as [parsed c]. simpl.
    destruct (entryOutcome M L date parsed satellite) as [| | | |s] eqn:E;
      simpl; try (apply sublist_cons; apply IH).
    rewrite (entryOutcome_identity _ _ _ _ E). apply sublist_skip, IH.
Qed.

(** X1.  The samples of a batch stand in the order of the catalog: their
    names, catalog numbers and categories are those of the catalog's
    entries with some entries left out, nothing added and nothing
    reordered. *)
Theorem batch_in_catalog_order (cache : Cache)
    (satellites : list SatelliteData)
    (timestamp observerLat observerLon observerAlt : number) :
  map sampleIdentity
    (propagateSatellites M L cache satellites timestamp
       observerLat observerLon observerAlt).1
  `sublist_of` map entryIdentity satellites.
Proof.
  rewrite propagateSatellites_outcomes. cbn [fst]. apply emitted_in_order.
Qed.

Lemma outcomes_app (date : Date) (l1 l2 : list SatelliteData) :
  forall cache : Cache,
    outcomes M L date cache (l1 ++ l2)
    = outcomes M L date cache l1
      ++ outcomes M L date (cacheAfter cache l1) l2.
Proof.
  induction l1 as [|s l1 IH]; intros cache; simpl; [reflexivity|].
  destruct (parseTLE L cache s) as [parsed c] eqn:E. simpl.
  now rewrite IH.
Qed.

(** X2.  A pass over two catalogs joined end to end is the pass over the
    first followed by the pass over the second from the cache the first
    left: the batches are joined in that order and the cache is the one
    the second pass leaves. *)
Theorem pass_over_concatenation (cache : Cache)
    (l1 l2 : list SatelliteData)
    (timestamp observerLat observerLon observerAlt : number) :
  let first :=
    propagateSatellites M L cache l1 timestamp
      observerLat observerLon observerAlt in
  let second :=
    propagateSatellites M L first.2 l2 timestamp
      observerLat observerLon observerAlt in
  propagateSatellites M L cache (l1 ++ l2) timestamp
    observerLat observerLon observerAlt
  = (first.1 ++ second.1, second.2).
Proof.
  cbn zeta. rewrite !propagateSatellites_outcomes. cbn [fst snd].
  rewrite outcomes_app, omap_app. unfold cacheAfter. now rewrite foldl_app.
Qed.

Lemma cacheAfter_new (satellites : list SatelliteData) :
  forall (cache : Cache) (k : string) (v : SatRec L),
    cache !! k = None ->
    cacheAfter cache satellites !! k = Some v ->
    exists s, s ∈ satellites /\ cacheKey s = k
      /\ twoline2satrec L (line1 (tle s)) (line2 (tle s)) = Some v.
Proof.
  induction satellites as [|satellite rest IH]; intros cache k v Hk Hv.
  - simpl in Hv. congruence.
  - simpl in Hv.
    destruct ((parseTLE L cache satellite).2 !! k) as [w|] eqn:Hw.
    + rewrite (cacheAfter_keeps L rest _ _ _ Hw) in Hv. injection Hv as ->.
      exists satellite. split; [left|].
      revert Hw. unfold parseTLE. cbn zeta.
      destruct (cache !! cacheKey satellite) eqn:E; cbn [snd];
        [congruence|].
      destruct (twoline2satrec L _ _) as [r|] eqn:P; cbn [snd];
        [|congruence].
      destruct (decide (cacheKey satellite = k)) as [<-|Hne].
      * rewrite lookup_insert_eq. intros [= ->]. auto.
      * rewrite lookup_insert_ne by exact Hne. congruence.
    + destruct (IH _ _ _ Hw Hv) as (s & Hs & Hkey & Hp).
      exists s. split; [now right|auto].
Qed.

(** X3.  A pass only adds to the cache.  A record cached before the pass
    is still cached under its key afterwards, unchanged; a record found
    afterwards under a key that was free before is what the parser
    returned for an entry of the catalog with that key. *)
Theorem pass_extends_cache (cache : Cache)
    (satellites : list SatelliteData)
    (timestamp observerLat observerLon observerAlt : number)
    (k : string) :
  let after :=
    (propagateSatellites M L cache satellites timestamp
       observerLat observerLon observerAlt).2 in
  match cache !! k with
  | Some v => after !! k = Some v
  | None =>
      forall v, after !! k = Some v ->
        exists s, s ∈ satellites /\ cacheKey s = k
          /\ twoline2satrec L (line1 (tle s)) (line2 (tle s)) = Some v
  end.
Proof.
  cbn zeta. rewrite propagateSatellites_outcomes. cbn [snd].
  destruct (cache !! k) as [v|] eqn:E.
  - now apply cacheAfter_keeps.
  - intros v. now apply cacheAfter_new.
Qed.

Lemma cacheAfter_has (satellites : list SatelliteData) :
  forall (cache : Cache) (s : SatelliteData),
    s ∈ satellites ->
    is_Some (twoline2satrec L (line1 (tle s)) (line2 (tle s))) ->
    is_Some (cacheAfter cache satellites !! cacheKey s).
Proof.
  induction satellites as [|satellite rest IH]; intros cache s Hs Hp.
  - inversion Hs.
  - apply elem_of_cons in Hs as [->|Hs]; [|now apply IH].
    simpl. destruct (parseTLE_cases L cache satellite)
      as [(r & _ & Hin)|(_ & _ & Hfail)].
    + exists r. now apply cacheAfter_keeps.
    + rewrite Hfail in Hp. now destruct Hp.
Qed.

(** X4.  After a pass, the key of every catalog entry whose two lines the
    parser accepts is in the cache, whatever the propagation made of the
    entry. *)
Theorem pass_caches_accepted_entries (cache : Cache)
    (satellites : list SatelliteData)
    (timestamp observerLat observerLon observerAlt : number)
    (s : SatelliteData) :
  s ∈ satellites ->
  is_Some (twoline2satrec L (line1 (tle s)) (line2 (tle s))) ->
  is_Some ((propagateSatellites M L cache satellites timestamp
              observerLat observerLon observerAlt).2 !! cacheKey s).
Proof.
  intros Hs Hp. rewrite propagateSatellites_outcomes. cbn [snd].
  now apply cacheAfter_has.
Qed.

(** X5.  When the key of every entry of the catalog is in the cache, the
    pass does not call the parser: with any other parser in its place the
    batch and the cache come out the same, and the cache is left as it
    was. *)
Theorem warm_cache_needs_no_parser (cache : Cache)
    (satellites : list SatelliteData)
    (timestamp observerLat observerLon observerAlt : number)
    (f : string -> string -> option (SatRec L)) :
  (forall s, s ∈ satellites -> is_Some (cache !! cacheKey s)) ->
  propagateSatellites M (with_parser L f) cache satellites timestamp
    observerLat observerLon observerAlt
  = propagateSatellites M L cache satellites timestamp
      observerLat observerLon observerAlt
  /\ (propagateSatellites M L cache satellites timestamp
        observerLat observerLon observerAlt).2 = cache.
Proof.
  intros Hwarm.
  assert (Hfix : forall (L' : SatelliteJs) (c : gmap string (SatRec L')),
             forall s r, c !! cacheKey s = Some r ->
                         parseTLE L' c s = (Some r, c)).
  { intros L' c s r H. now apply parseTLE_hit. }
  rewrite !propagateSatellites_outcomes.
  destruct (settled_pass M L (new_Date timestamp) satellites cache)
    as (Ho & Hc).
  { intros s Hs. destruct (Hwarm s Hs) as [r Hr].
    now rewrite (Hfix L cache s r Hr). }
  destruct (settled_pass M (with_parser L f) (new_Date timestamp)
              satellites cache) as (Ho' & Hc').
  { intros s Hs. destruct (Hwarm s Hs) as [r Hr].
    now rewrite (Hfix (with_parser L f) cache s r Hr). }
  rewrite Ho, Hc, Ho', Hc'. cbn [snd]. split; [|reflexivity].
  f_equal. f_equal. apply map_ext_in. intros s Hs%list_elem_of_In.
  destruct (Hwarm s Hs) as [r Hr].
  rewrite (Hfix L cache s r Hr), (Hfix (with_parser L f) cache s r Hr).
  reflexivity.
Qed.

End BatchFacts.

(** ** Cache keys of fixed-column catalogs *)

Lemma dash_split (s1 s2 t1 t2 : string) :
  noDash s1 = true -> noDash s2 = true ->
  s1 +:+ "-" +:+ t1 = s2 +:+ "-" +:+ t2 -> s1 = s2 /\ t1 = t2.
Proof.
  revert s2. induction s1 as [|a s1 IH]; intros [|b s2] Ha Hb H.
  - change (String "-" t1 = String "-" t2) in H. injection H as ->. auto.
  - change (String "-" t1 = String b (s2 +:+ "-" +:+ t2)) in H.
    injection H as <- _. simpl in Hb. discriminate.
  - change (String a (s1 +:+ "-" +:+ t1) = String "-" t2) in H.
    injection H as -> _. simpl in Ha. discriminate.
  - change (String a (s1 +:+ "-" +:+ t1) = String b (s2 +:+ "-" +:+ t2)) in H.
    injection H as -> H. simpl in Ha, Hb.
    apply andb_prop in Ha as [_ Ha]. apply andb_prop in Hb as [_ Hb].
    destruct (IH _ Ha Hb H) as [-> ->]. auto.
Qed.

Lemma fixedColumn_tle (width : nat) (a b : SatelliteData) :
  fixedColumn width a = true -> fixedColumn width b = true ->
  cacheKey a = cacheKey b -> tle a = tle b.
Proof.
  unfold fixedColumn.
  intros [Ha Hla%Nat.eqb_eq]%andb_prop [Hb Hlb%Nat.eqb_eq]%andb_prop Hkey.
  apply cacheKey_inj; [|congruence|exact Hkey].
  unfold cacheKey in Hkey. now destruct (dash_split _ _ _ _ Ha Hb Hkey).
Qed.

(** X6.  Among entries whose catalog number has no hyphen and whose first
    lines have one length, the cache key tells entries apart: two entries
    with the same key have the same catalog number and the same two
    lines. *)
Theorem cacheKey_injective (width : nat) (a b : SatelliteData) :
  fixedColumn width a = true -> fixedColumn width b = true ->
  cacheKey a = cacheKey b ->
  sd_noradId a = sd_noradId b /\ tle a = tle b.
Proof.
  intros Ha Hb Hkey. split; [|exact (fixedColumn_tle width a b Ha Hb Hkey)].
  unfold fixedColumn in Ha, Hb.
  apply andb_prop in Ha as [Ha _]. apply andb_prop in Hb as [Hb _].
  unfold cacheKey in Hkey. now destruct (dash_split _ _ _ _ Ha Hb Hkey).
Qed.

Section Replies.
Context {R : Rounding} (M : MathLib) (L : SatelliteJs).
Local Abbreviation Cache := (gmap string (SatRec L)).

(** X7.  For a catalog whose catalog numbers have no hyphen and whose
    first lines have one length, a second pass at the same instant,
    started from the cache the first pass left, returns the batch and the
    cache of the first, whatever the parser rejects. *)
Theorem fixed_column_catalog_repeats (width : nat) (cache : Cache)
    (satellites : list SatelliteData)
    (timestamp observerLat observerLon observerAlt : number) :
  Forall (fun d => fixedColumn width d = true) satellites ->
  let first :=
    propagateSatellites M L cache satellites timestamp
      observerLat observerLon observerAlt in
  propagateSatellites M L first.2 satellites timestamp
    observerLat observerLon observerAlt
  = first.
Proof.
  intros Hall first. subst first.
  rewrite !propagateSatellites_outcomes. cbn [fst snd].
  assert (Hc : failuresAgree L satellites).
  { intros x y Hx Hy Hkey Hfail. rewrite Forall_forall in Hall.
    now rewrite <- (fixedColumn_tle width x y (Hall x Hx) (Hall y Hy) Hkey). }
  destruct (first_pass_settles M L (new_Date timestamp) satellites Hc cache)
    as (Hfix & Hout).
  destruct (settled_pass M L (new_Date timestamp) satellites _ Hfix)
    as (Hout2 & Hcache2).
  now rewrite Hout2, Hcache2, Hout.
Qed.

Lemma normalizeLon_finite (q : Qc) :
  JsNum.isFinite (normalizeLon (Num q)) = true.
Proof. reflexivity. Qed.

Lemma entryOutcome_finite (date : Date) (parsed : option (SatRec L))
    (satellite : SatelliteData) (s : SatellitePosition) :
  entryOutcome M L date parsed satellite = Emitted s ->
  JsNum.isFinite (lat (position s)) = true
  /\ JsNum.isFinite (lon (position s)) = true
  /\ JsNum.isFinite (alt (position s)) = true.
Proof.
  unfold entryOutcome.
  destruct parsed as [satrec|]; [|discriminate].
  destruct (_ && _); [|discriminate].
  destruct (stateVector _) as [[eci vel]|]; [|discriminate].
  set (g := ecefToGeodetic M _ _ _).
  destruct (JsNum.isFinite (latitude g)) eqn:Hlat; [|discriminate].
  destruct (JsNum.isFinite (longitude g)) eqn:Hlon; [|discriminate].
  destruct (JsNum.isFinite (height g)) eqn:Hh; [|discriminate].
  cbn [andb]. intros E%Emitted_inj. subst s. cbn [position lat lon alt].
  destruct (toDegrees_finite _ Hlat) as [a ->].
  destruct (toDegrees_finite _ Hlon) as [b ->].
  split; [reflexivity|split; [apply normalizeLon_finite|exact Hh]].
Qed.

(** X8.  Every sample of a batch has a finite latitude, a finite
    longitude and a finite altitude: no infinity and no NaN reaches the
    consumer in a position. *)
Theorem positions_are_finite (cache : Cache)
    (satellites : list SatelliteData)
    (timestamp observerLat observerLon observerAlt : number) :
  Forall (fun s =>
            JsNum.isFinite (lat (position s)) = true
            /\ JsNum.isFinite (lon (position s)) = true
            /\ JsNum.isFinite (alt (position s)) = true)
    (propagateSatellites M L cache satellites timestamp
       observerLat observerLon observerAlt).1.
Proof.
  apply Forall_forall. intros s Hs.
  destruct (sample_outcome M L cache satellites timestamp
              observerLat observerLon observerAlt s Hs)
    as (parsed & satellite & _ & E).
  exact (entryOutcome_finite _ _ _ _ E).
Qed.

(** X9.  What a reply tells about the message it answers.  READY answers
    INIT; an ERROR carries one of two texts, the one for a PROPAGATE
    message without a catalog or the one that quotes the unknown type;
    POSITIONS answers a PROPAGATE message with a catalog, its count is
    the length of its batch and the batch is no longer than the catalog.
    Only a POSITIONS reply can come with a changed cache. *)
Theorem replies_by_kind (now : number) (cache : Cache) (msg : WorkerMessage) :
  match (onmessage M L now cache msg).1 with
  | READY => msg_type msg = INIT /\ (onmessage M L now cache msg).2 = cache
  | ERROR e =>
      (onmessage M L now cache msg).2 = cache
      /\ ((msg_type msg = PROPAGATE
           /\ (msg_data msg ≫= satellites) = None
           /\ e = "No satellite data provided")
          \/ exists tag, msg_type msg = OtherType tag
                         /\ e = "Unknown message type: " +:+ tag)
  | POSITIONS d =>
      msg_type msg = PROPAGATE
      /\ pd_count d = length (pd_positions d)
      /\ exists sats, (msg_data msg ≫= satellites) = Some sats
                      /\ (length (pd_positions d) <= length sats)%nat
  end.
Proof.
  unfold onmessage. destruct (msg_type msg) as [| |tag].
  - cbn [fst snd]. auto.
  - destruct (msg_data msg) as [d|]; cbn [mbind option_bind fst snd].
    + destruct (satellites d) as [sats|]; cbn [fst snd].
      * set (ts := or_default _ now). set (a := or_default (observerLat d) _).
        set (b := or_default (observerLon d) _).
        set (c := or_default (observerAlt d) _).
        pose proof (batch_length_le M L cache sats ts a b c) as Hle.
        destruct (propagateSatellites M L cache sats ts a b c) as [out c'].
        cbn [fst snd pd_count pd_positions] in *.
        split; [reflexivity|]. split; [reflexivity|]. eauto.
      * split; [reflexivity|]. left. auto.
    + split; [reflexivity|]. left. auto.
  - cbn [fst snd]. split; [reflexivity|]. right. eauto.
Qed.

(** X10.  The observer's position has no effect on the reply: two
    messages of the same type with the same catalog and the same
    timestamp get the same reply and leave the same cache, whatever
    observer each of them names. *)
Theorem observer_is_ignored (now : number) (cache : Cache)
    (msg msg' : WorkerMessage) :
  msg_type msg = msg_type msg' ->
  msg_data msg ≫= satellites = msg_data msg' ≫= satellites ->
  msg_data msg ≫= timestamp = msg_data msg' ≫= timestamp ->
  onmessage M L now cache msg = onmessage M L now cache msg'.
Proof.
  intros Ht Hs Hts. unfold onmessage. rewrite <- Ht.
  destruct (msg_type msg); [reflexivity| |reflexivity].
  destruct (msg_data msg) as [d|], (msg_data msg') as [d'|];
    cbn [mbind option_bind] in Hs, Hts.
  - destruct (satellites d) as [sats|], (satellites d') as [sats'|];
      try discriminate; [|reflexivity].
    injection Hs as <-. rewrite <- Hts. reflexivity.
  - now rewrite Hs.
  - now rewrite <- Hs.
  - reflexivity.
Qed.

(** ** The hook and the worker *)

(** X11.  One tick of the hook, answered by the worker.  With a catalog
    loaded, the message that [propagatePositions] posts is answered by a
    batch for the hook's own clock reading and observer; the handler
    stores that batch and that reading and clears the error. *)
Theorem tick_round_trip (st : HookState) (satelliteData : list SatelliteData)
    (now workerNow : number) (observerPosition : Position) (cache : Cache) :
  satelliteData <> [] -> JsNum.truthy now = true ->
  exists msg,
    propagatePositions true satelliteData now observerPosition = Some msg
    /\ handleReply st (onmessage M L workerNow cache msg).1
       = {| hk_satellites :=
              (propagateSatellites M L cache satelliteData now
                 (lat observerPosition) (lon observerPosition)
                 (alt observerPosition)).1;
            hk_loading := hk_loading st;
            hk_error := None;
            hk_lastUpdate := Some now |}.
Proof.
  intros Hne Hnow. unfold propagatePositions.
  destruct satelliteData as [|s rest]; [contradiction|].
  cbn [andb length Nat.ltb Nat.leb]. eexists. split; [reflexivity|].
  unfold onmessage.
  cbn [msg_type msg_data satellites timestamp observerLat observerLon
       observerAlt].
  assert (Hts : or_default (Some now) workerNow = now).
  { unfold or_default. now rewrite Hnow. }
  rewrite Hts.
  set (a := or_default _ _). set (b := or_default _ _).
  set (c := or_default _ _).
  change (propagateSatellites M L cache (s :: rest) now a b c)
    with (propagateSatellites M L cache (s :: rest) now
            (lat observerPosition) (lon observerPosition)
            (alt observerPosition)).
  destruct (propagateSatellites M L cache (s :: rest) now _ _ _)
    as [out c']. reflexivity.
Qed.

Lemma error_reply_text (now : number) (cache : Cache) (msg : WorkerMessage)
    (e : string) :
  (onmessage M L now cache msg).1 = ERROR e -> errorText e = e.
Proof.
  unfold onmessage. destruct (msg_type msg) as [| |tag].
  - discriminate.
  - destruct (msg_data msg) as [d|]; [|now intros [= <-]].
    destruct (satellites d) as [sats|]; [|now intros [= <-]].
    destruct (propagateSatellites M L cache sats _ _ _ _). discriminate.
  - intros [= <-]. reflexivity.
Qed.

(** X12.  An ERROR reply of the worker reaches the hook's state as the
    worker's own text, never as the fallback text, and leaves the batch
    and the time of the last update as they were. *)
Theorem error_reply_keeps_batch (st : HookState) (now : number)
    (cache : Cache) (msg : WorkerMessage) (e : string) :
  (onmessage M L now cache msg).1 = ERROR e ->
  handleReply st (onmessage M L now cache msg).1
  = {| hk_satellites := hk_satellites st;
       hk_loading := hk_loading st;
       hk_error := Some e;
       hk_lastUpdate := hk_lastUpdate st |}.
Proof.
  intros He. pose proof (error_reply_text now cache msg e He) as Ht.
  rewrite He. cbn [handleReply]. now rewrite Ht.
Qed.

Lemma filter_all {A : Type} (f : A -> bool) (l : list A) :
  Forall (fun x => f x = true) l -> List.filter f l = l.
Proof.
  induction 1 as [|x l Hx _ IH]; simpl; [reflexivity|]. now rewrite Hx, IH.
Qed.

Lemma batch_all_visible (cache : Cache) (satellites : list SatelliteData)
    (timestamp observerLat observerLon observerAlt : number) :
  Forall (fun s => visible s = true)
    (propagateSatellites M L cache satellites timestamp
       observerLat observerLon observerAlt).1.
Proof.
  apply Forall_forall. intros s Hs.
  destruct (sample_outcome M L cache satellites timestamp
              observerLat observerLon observerAlt s Hs)
    as (parsed & satellite & _ & E).
  exact (proj1 (entryOutcome_emitted M L _ _ _ _ E)).
Qed.

(** ** The consumers of a batch *)

(** X13.  The analysis of a batch of the worker.  It is withheld exactly
    when the batch is empty; otherwise it counts every sample as visible
    and none as invisible. *)
Theorem analysis_of_batch (cache : Cache) (satellites : list SatelliteData)
    (timestamp observerLat observerLon observerAlt : number) :
  let batch :=
    (propagateSatellites M L cache satellites timestamp
       observerLat observerLon observerAlt).1 in
  match analysisData batch with
  | None => batch = []
  | Some a =>
      batch <> [] /\ an_total a = length batch
      /\ an_visible a = length batch /\ an_invisible a = 0%nat
  end.
Proof.
  intros batch. unfold analysisData.
  destruct (Nat.eqb_spec (length batch) 0) as [H0|Hn0].
  - now apply length_zero_iff_nil.
  - cbn [an_total an_visible an_invisible].
    pose proof (batch_all_visible cache satellites timestamp
                  observerLat observerLon observerAlt) as Hall.
    fold batch in Hall. rewrite (filter_all _ _ Hall).
    split; [now intros E; rewrite E in Hn0|]. lia.
Qed.

(** X14.  The filter for invisible objects, applied to a batch of the
    worker, keeps no sample, whatever the other filter settings are; the
    list displayed then falls back to the whole batch. *)
Theorem invisible_filter_shows_all (Str : StringLib) (cache : Cache)
    (satellites : list SatelliteData)
    (timestamp observerLat observerLon observerAlt : number)
    (filters : FilterState) :
  visibility filters = VisInvisible ->
  let batch :=
    (propagateSatellites M L cache satellites timestamp
       observerLat observerLon observerAlt).1 in
  applyFilters Str batch filters = []
  /\ displayData (applyFilters Str batch filters) batch = batch.
Proof.
  intros Hv batch.
  assert (Hnone : applyFilters Str batch filters = []).
  { unfold applyFilters.
    pose proof (batch_all_visible cache satellites timestamp
                  observerLat observerLon observerAlt) as Hall.
    fold batch in Hall.
    induction Hall as [|s l Hs _ IH]; [reflexivity|].
    cbn [List.filter]. rewrite IH. unfold passesFilters.
    rewrite Hv, Hs. cbn [negb].
    destruct (negb _); [reflexivity|]. destruct (_ && _); [reflexivity|].
    now destruct (_ || _). }
  split; [exact Hnone|]. now rewrite Hnone.
Qed.

End Replies.

Lemma range_of_altitude (sat : SatellitePosition) :
  (length (List.filter (fun range => inRange range sat) altitudeRanges)
   = if js_ge (alt (position sat)) (lit 0)
        && JsNum.lt (alt (position sat)) PosInf then 1 else 0)%nat.
Proof.
  unfold altitudeRanges, inRange. cbn [List.filter range_min range_max].
  destruct (alt (position sat)) as [q| | |]; try reflexivity.
  unfold js_ge, JsNum.lt, lit, JsNum.Qc_ltb.
  change (Qnum (Q2Qc 0)) with 0. change (QDen (Q2Qc 0)) with 1.
  change (Qnum (Q2Qc 2000)) with 2000. change (QDen (Q2Qc 2000)) with 1.
  change (Qnum (Q2Qc 35786)) with 35786. change (QDen (Q2Qc 35786)) with 1.
  generalize (Qnum q) (Qden q). intros n d.
  destruct (Z.ltb_spec (n * 1)%Z (0 * Z.pos d)%Z),
    (Z.ltb_spec (n * 1)%Z (2000 * Z.pos d)%Z),
    (Z.ltb_spec (n * 1)%Z (35786 * Z.pos d)%Z); cbn; try reflexivity; lia.
Qed.

(** X15.  The three altitude ranges of the analysis do not overlap and
    leave no gap above the ground: their counts add up to the number of
    samples whose altitude is a number from 0 upwards, so a sample with a
    negative altitude, or with none, is in no range. *)
Theorem altitude_ranges_partition (satelliteData : list SatellitePosition)
    (a : Analysis) :
  analysisData satelliteData = Some a ->
  (list_sum (an_ranges a)
   = countb (fun sat => js_ge (alt (position sat)) (lit 0)
                        && JsNum.lt (alt (position sat)) PosInf)
       satelliteData)%nat.
Proof.
  unfold analysisData. destruct (length satelliteData =? 0)%nat; [discriminate|].
  intros [= <-]. cbn [an_ranges altitudeRanges map list_sum].
  induction satelliteData as [|sat rest IH]; [reflexivity|].
  pose proof (range_of_altitude sat) as Hsat.
  unfold altitudeRanges in Hsat. cbn [List.filter] in Hsat.
  cbn [List.filter countb].
  destruct (inRange _ sat), (inRange _ sat), (inRange _ sat);
    cbn [length] in *; destruct (_ && _); cbn in *; lia.
Qed.

(** ** The response cache of the routes *)

(** X16.  A response stored under a key is served for that key while its
    age is below the cache duration and withheld from then on; storing it
    changes the answer for no other key. *)
Theorem cached_response_lifetime {A : Type} (CACHE_DURATION : Z)
    (cache : gmap string (Cached A)) (stored now : Z) (key key' : string)
    (data : A) :
  getCachedData CACHE_DURATION (setCachedData cache stored key data) now key'
  = if decide (key = key')
    then (if (now - stored <? CACHE_DURATION)%Z then Some data else None)
    else getCachedData CACHE_DURATION cache now key'.
Proof.
  unfold getCachedData, setCachedData.
  destruct (decide (key = key')) as [->|Hne].
  - now rewrite lookup_insert_eq.
  - now rewrite lookup_insert_ne.
Qed.

(** ** The catalog source *)

Lemma tleLoop_step (category : string) (lines : list string) (i : nat)
    (satellites : list TLEData) :
  tleLoop category lines i satellites =
  if decide (i < length lines)%nat then
    if decide (i + 2 < length lines)%nat
    then tleLoop category lines (i + 3)
           (satellites ++ [tleEntry category lines i])
    else tleLoop category lines (i + 3) satellites
  else satellites.
Proof.
  rewrite tleLoop_equation_1. simpl.
  destruct (decide (i < length lines)%nat); reflexivity.
Qed.

Lemma tleLoop_groups (category : string) (lines : list string) (m : nat) :
  forall (j : nat) (satellites : list TLEData),
    (length lines - 3 * j <= m)%nat ->
    tleLoop category lines (3 * j) satellites
    = satellites
      ++ map (fun k => tleEntry category lines (3 * k))
           (seq j (length lines / 3 - j)).
Proof.
  induction m as [|m IH]; intros j satellites Hm; rewrite tleLoop_step.
  - destruct (decide _) as [H|H]; [lia|].
    replace (length lines / 3 - j)%nat with 0%nat; [now rewrite app_nil_r|].
    symmetry. apply Nat.sub_0_le. apply Nat.Div0.div_le_upper_bound. lia.
  - destruct (decide (3 * j < length lines)%nat) as [H|H].
    + replace (3 * j + 3)%nat with (3 * S j)%nat by lia.
      destruct (decide (3 * j + 2 < length lines)%nat) as [H2|H2].
      * rewrite IH by lia. rewrite <- app_assoc. f_equal.
        assert (Hj : (S j <= length lines / 3)%nat)
          by (apply Nat.div_le_lower_bound; lia).
        replace (length lines / 3 - j)%nat
          with (S (length lines / 3 - S j)) by lia.
        reflexivity.
      * rewrite IH by lia.
        assert (Hj : (length lines / 3 < S j)%nat)
          by (apply Nat.Div0.div_lt_upper_bound; lia).
        replace (length lines / 3 - S j)%nat with 0%nat by lia.
        replace (length lines / 3 - j)%nat with 0%nat by lia.
        reflexivity.
    + replace (length lines / 3 - j)%nat with 0%nat; [now rewrite app_nil_r|].
      symmetry. apply Nat.sub_0_le. apply Nat.Div0.div_le_upper_bound. lia.
Qed.

(** X17.  The entries parsed from a text are made of its lines taken
    three at a time from the top, in order: the k-th entry comes from the
    lines 3k, 3k+1 and 3k+2 of the trimmed text, and the one or two lines
    left over at the end make no entry. *)
Theorem entries_by_line_triples (category text : string) :
  let lines := splitLines (trim text) in
  parseTLEText category text
  = map (fun k => tleEntry category lines (3 * k))
      (seq 0 (length lines / 3)).
Proof.
  intros lines. unfold parseTLEText. fold lines.
  change 0%nat with (3 * 0)%nat at 1.
  rewrite (tleLoop_groups category lines (length lines) 0 []) by lia.
  now rewrite Nat.sub_0_r.
Qed.

Lemma trimStart_clean (s : string) : startsClean (trimStart s) = true.
Proof.
  induction s as [|c s IH]; [reflexivity|]. simpl.
  destruct (isWhiteSpace c) eqn:E; [exact IH|]. simpl. now rewrite E.
Qed.

Lemma trimStart_fix (s : string) : startsClean s = true -> trimStart s = s.
Proof.
  destruct s as [|c s]; [reflexivity|]. simpl.
  now destruct (isWhiteSpace c).
Qed.

Lemma trimEnd_clean (s : string) :
  startsClean s = true -> startsClean (trimEnd s) = true.
Proof.
  destruct s as [|c s]; [reflexivity|]. simpl. intros Hc.
  destruct (trimEnd s); [|exact Hc].
  destruct (isWhiteSpace c) eqn:E; [reflexivity|]. simpl. now rewrite E.
Qed.

Lemma trimEnd_cons (c : ascii) (s : string) :
  trimEnd (String c s) =
  match trimEnd s with
  | EmptyString => if isWhiteSpace c then EmptyString else String c EmptyString
  | t => String c t
  end.
Proof. reflexivity. Qed.

Lemma trimEnd_idem (s : string) : trimEnd (trimEnd s) = trimEnd s.
Proof.
  induction s as [|c s IH]; [reflexivity|]. rewrite trimEnd_cons.
  destruct (trimEnd s) as [|d t] eqn:E.
  - destruct (isWhiteSpace c) eqn:Hc; [reflexivity|].
    rewrite trimEnd_cons. cbn [trimEnd]. now rewrite Hc.
  - rewrite trimEnd_cons, IH. reflexivity.
Qed.

Lemma trim_idem (s : string) : trim (trim s) = trim s.
Proof.
  unfold trim.
  rewrite (trimStart_fix (trimEnd (trimStart s))).
  - apply trimEnd_idem.
  - apply trimEnd_clean, trimStart_clean.
Qed.

Lemma trimStart_length (s : string) :
  (String.length (trimStart s) <= String.length s)%nat.
Proof.
  induction s as [|c s IH]; simpl; [lia|].
  destruct (isWhiteSpace c); simpl; lia.
Qed.

Lemma trimEnd_length (s : string) :
  (String.length (trimEnd s) <= String.length s)%nat.
Proof.
  induction s as [|c s IH]; simpl; [lia|].
  destruct (trimEnd s); [destruct (isWhiteSpace c)|]; simpl in *; lia.
Qed.

Lemma trim_length (s : string) :
  (String.length (trim s) <= String.length s)%nat.
Proof.
  unfold trim. pose proof (trimEnd_length (trimStart s)).
  pose proof (trimStart_length s). lia.
Qed.

Lemma substring_length (n m : nat) (s : string) :
  (String.length (String.substring n m s) <= m)%nat.
Proof.
  revert n m. induction s as [|c s IH]; intros [|n] [|m]; simpl; try lia.
  - specialize (IH 0%nat m). lia.
  - apply (IH n 0%nat).
  - apply (IH n (S m)).
Qed.

Lemma columns_length (line : string) :
  (String.length (trim (String.substring 2 5 line)) <= 5)%nat.
Proof.
  pose proof (trim_length (String.substring 2 5 line)).
  pose proof (substring_length 2 5 line). lia.
Qed.

Lemma string_app_cons (c : ascii) (a b : string) :
  String c a +:+ b = String c (a +:+ b).
Proof. reflexivity. Qed.

Lemma string_app_nil (b : string) : "" +:+ b = b.
Proof. reflexivity. Qed.

Lemma trimStart_white (s : string) : allWhite s = true -> trimStart s = "".
Proof.
  induction s as [|c s IH]; [reflexivity|]. simpl.
  intros [-> H]%andb_prop. auto.
Qed.

Lemma trimEnd_white (s : string) : allWhite s = true -> trimEnd s = "".
Proof.
  induction s as [|c s IH]; [reflexivity|]. simpl.
  intros [Hc H]%andb_prop. now rewrite (IH H), Hc.
Qed.

Lemma trimStart_nonblank (s : string) :
  allWhite s = false -> trimStart s <> "".
Proof.
  induction s as [|c s IH]; [discriminate|]. simpl.
  destruct (isWhiteSpace c); [exact IH|discriminate].
Qed.

Lemma trimEnd_nonblank (s : string) : allWhite s = false -> trimEnd s <> "".
Proof.
  induction s as [|c s IH]; [discriminate|]. simpl.
  destruct (trimEnd s) eqn:E; [|discriminate].
  destruct (isWhiteSpace c); [|discriminate]. simpl. intros H.
  now specialize (IH H).
Qed.

Lemma allWhite_app (a b : string) :
  allWhite (a +:+ b) = allWhite a && allWhite b.
Proof.
  induction a as [|c a IH]; [reflexivity|]. rewrite string_app_cons. simpl.
  now rewrite IH, andb_assoc.
Qed.

Lemma trimStart_app_white (w s : string) :
  allWhite w = true -> trimStart (w +:+ s) = trimStart s.
Proof.
  induction w as [|c w IH]; [reflexivity|]. rewrite string_app_cons. simpl.
  intros [-> H]%andb_prop. auto.
Qed.

Lemma trimEnd_app_white (s w : string) :
  allWhite w = true -> trimEnd (s +:+ w) = trimEnd s.
Proof.
  intros H. induction s as [|c s IH].
  - rewrite string_app_nil. now apply trimEnd_white.
  - rewrite string_app_cons, !trimEnd_cons. now rewrite IH.
Qed.

Lemma trimStart_app (a b : string) :
  allWhite a = false -> trimStart (a +:+ b) = trimStart a +:+ b.
Proof.
  induction a as [|c a IH]; [discriminate|]. rewrite string_app_cons. simpl.
  destruct (isWhiteSpace c); [exact IH|reflexivity].
Qed.

Lemma trimEnd_app (a b : string) :
  trimEnd b <> "" -> trimEnd (a +:+ b) = a +:+ trimEnd b.
Proof.
  intros H. induction a as [|c a IH]; [reflexivity|].
  rewrite !string_app_cons, trimEnd_cons, IH.
  destruct (a +:+ trimEnd b) eqn:E; [|reflexivity].
  destruct a; [|discriminate]. now rewrite string_app_nil in E.
Qed.

Lemma trimStart_idem (s : string) : trimStart (trimStart s) = trimStart s.
Proof. apply trimStart_fix, trimStart_clean. Qed.

Lemma trim_trimStart (s : string) : trim (trimStart s) = trim s.
Proof. unfold trim. now rewrite trimStart_idem. Qed.

Lemma trimEnd_empty (s : string) : trimEnd s = "" -> allWhite s = true.
Proof.
  intros H. destruct (allWhite s) eqn:E; [reflexivity|].
  now destruct (trimEnd_nonblank s E).
Qed.

Lemma trim_comm (s : string) : trimStart (trimEnd s) = trimEnd (trimStart s).
Proof.
  induction s as [|c s IH]; [reflexivity|].
  destruct (isWhiteSpace c) eqn:Hc.
  - rewrite trimEnd_cons. cbn [trimStart]. rewrite Hc.
    destruct (trimEnd s) as [|d t] eqn:E.
    + rewrite (trimStart_white s (trimEnd_empty s E)). reflexivity.
    + rewrite <- IH. cbn [trimStart]. now rewrite Hc.
  - cbn [trimStart]. rewrite Hc. apply trimStart_fix, trimEnd_clean.
    simpl. now rewrite Hc.
Qed.

Lemma trim_trimEnd (s : string) : trim (trimEnd s) = trim s.
Proof. unfold trim. now rewrite trim_comm, trimEnd_idem. Qed.

Lemma noNewline_trimStart (s : string) :
  noNewline s = true -> noNewline (trimStart s) = true.
Proof.
  induction s as [|c s IH]; [reflexivity|]. simpl.
  intros [Hc H]%andb_prop.
  destruct (isWhiteSpace c); [auto|]. simpl. now rewrite Hc, H.
Qed.

Lemma noNewline_trimEnd (s : string) :
  noNewline s = true -> noNewline (trimEnd s) = true.
Proof.
  induction s as [|c s IH]; [reflexivity|]. rewrite trimEnd_cons.
  cbn [noNewline]. intros [Hc H]%andb_prop. specialize (IH H).
  destruct (trimEnd s) as [|d t].
  - destruct (isWhiteSpace c); [reflexivity|]. simpl. now rewrite Hc.
  - change (negb (isNewline c) && noNewline (String d t) = true).
    now rewrite Hc, IH.
Qed.

Local Abbreviation nl := (String "010" EmptyString).

Lemma splitLines_line (s : string) :
  noNewline s = true -> splitLines s = [s].
Proof.
  induction s as [|c s IH]; [reflexivity|]. simpl.
  intros [Hc H]%andb_prop. apply negb_true_iff in Hc. rewrite Hc.
  now rewrite (IH H).
Qed.

Lemma splitLines_app (s t : string) :
  noNewline s = true -> splitLines (s +:+ nl +:+ t) = s :: splitLines t.
Proof.
  induction s as [|c s IH].
  - intros _. reflexivity.
  - rewrite string_app_cons. simpl. intros [Hc H]%andb_prop.
    apply negb_true_iff in Hc. rewrite Hc. now rewrite (IH H).
Qed.

Lemma concat_cons (x y : string) (r : list string) :
  String.concat nl (x :: y :: r) = x +:+ nl +:+ String.concat nl (y :: r).
Proof. reflexivity. Qed.

Lemma splitLines_concat (ls : list string) :
  ls <> [] -> Forall (fun l => noNewline l = true) ls ->
  splitLines (String.concat nl ls) = ls.
Proof.
  induction ls as [|x [|y r] IH]; intros Hne Hall; [contradiction| |].
  - apply splitLines_line. now inversion Hall.
  - rewrite concat_cons. inversion Hall as [|? ? Hx Hr]; subst.
    rewrite splitLines_app by exact Hx. f_equal. now apply IH.
Qed.

Lemma trimStart_concat (ls : list string) :
  Forall (fun l => allWhite l = false) ls ->
  trimStart (String.concat nl ls) = String.concat nl (trimFirst ls).
Proof.
  destruct ls as [|x [|y r]]; intros Hall; [reflexivity|reflexivity|].
  cbn [trimFirst]. rewrite !concat_cons. apply trimStart_app.
  now inversion Hall.
Qed.

Lemma trimEnd_concat (ls : list string) :
  ls <> [] -> Forall (fun l => trimEnd l <> "") ls ->
  trimEnd (String.concat nl ls) = String.concat nl (trimLast ls)
  /\ String.concat nl (trimLast ls) <> "".
Proof.
  induction ls as [|x [|y r] IH]; intros Hne Hall; [contradiction| |].
  - split; [reflexivity|]. now inversion Hall.
  - inversion Hall as [|? ? Hx Hr]; subst.
    destruct IH as (IH1 & IH2); [discriminate|exact Hr|].
    change (trimLast (x :: y :: r)) with (x :: trimLast (y :: r)).
    assert (Hcc : exists y' r', trimLast (y :: r) = y' :: r').
    { destruct r; simpl; eauto. }
    destruct Hcc as (y' & r' & Hcc). rewrite Hcc in *.
    rewrite !concat_cons. split.
    + rewrite trimEnd_app.
      * f_equal. rewrite trimEnd_app; [now rewrite IH1|].
        now rewrite IH1.
      * rewrite trimEnd_app; [discriminate|now rewrite IH1].
    + destruct x; discriminate.
Qed.

Lemma list_ind3 {A : Type} (P : list A -> Prop) :
  P [] -> (forall a, P [a]) -> (forall a b, P [a; b]) ->
  (forall a b c l, P l -> P (a :: b :: c :: l)) ->
  forall l, P l.
Proof.
  intros H0 H1 H2 H3 l.
  enough (H : P l /\ (forall a, P (a :: l)) /\ (forall a b, P (a :: b :: l)))
    by apply H.
  induction l as [|x l (IH0 & IH1 & IH2)]; auto.
Qed.

Lemma tleEntry_three (category a b c : string) (rest : list string) :
  tleEntry category (a :: b :: c :: rest) 0
  = {| td_name := trim a; td_line1 := trim b; td_line2 := trim c;
       td_category := category;
       td_noradId := noradIdOf (trim b) (trim c) |}.
Proof. reflexivity. Qed.

Lemma tleEntry_shift (category a b c : string) (l : list string) (k : nat) :
  tleEntry category (a :: b :: c :: l) (3 * S k)
  = tleEntry category l (3 * k).
Proof.
  replace (3 * S k)%nat with (S (S (S (3 * k)))) by lia. reflexivity.
Qed.

Lemma map_groups (category : string) (lines : list string) :
  map (fun k => tleEntry category lines (3 * k)) (seq 0 (length lines / 3))
  = groups category lines.
Proof.
  induction lines as [|a|a b|a b c l IH] using list_ind3; try reflexivity.
  change (length (a :: b :: c :: l)) with (3 + length l)%nat.
  replace ((3 + length l) / 3)%nat with (S (length l / 3)).
  - cbn [seq map groups]. rewrite !tleEntry_three. f_equal.
    rewrite <- seq_shift, map_map, <- IH. apply map_ext. intros k.
    apply tleEntry_shift.
  - replace (3 + length l)%nat with (length l + 1 * 3)%nat by lia.
    rewrite Nat.div_add by lia. lia.
Qed.

Lemma parseTLEText_by_three (category text : string) :
  parseTLEText category text = groups category (splitLines (trim text)).
Proof.
  unfold parseTLEText.
  change 0%nat with (3 * 0)%nat at 1.
  rewrite (tleLoop_groups category _ (length (splitLines (trim text))) 0 [])
    by lia.
  rewrite Nat.sub_0_r. apply map_groups.
Qed.

Lemma groups_sameText (category : string) (l : list string) :
  forall l', Forall2 sameText l l' ->
             groups category l = groups category l'.
Proof.
  induction l as [|a|a b|a b c l IH] using list_ind3; intros l' H.
  - now inversion H.
  - inversion H as [|? ? ? ? _ H1]; subst. now inversion H1.
  - inversion H as [|? ? ? ? _ H1]; subst.
    inversion H1 as [|? ? ? ? _ H2]; subst. now inversion H2.
  - inversion H as [|? a' ? ? Ha H1]; subst.
    inversion H1 as [|? b' ? ? Hb H2]; subst.
    inversion H2 as [|? c' ? l'' Hc H3]; subst.
    cbn [groups]. rewrite !tleEntry_three, (IH _ H3).
    unfold sameText in *. now rewrite Ha, Hb, Hc.
Qed.

Lemma sameText_refl (l : list string) : Forall2 sameText l l.
Proof. induction l; constructor; auto. reflexivity. Qed.

Lemma trimFirst_sameText (l : list string) : Forall2 sameText (trimFirst l) l.
Proof.
  destruct l as [|x r]; [constructor|]. constructor;
    [apply trim_trimStart|apply sameText_refl].
Qed.

Lemma trimLast_sameText (l : list string) : Forall2 sameText (trimLast l) l.
Proof.
  induction l as [|x [|y r] IH]; [constructor| |].
  - constructor; [apply trim_trimEnd|constructor].
  - change (trimLast (x :: y :: r)) with (x :: trimLast (y :: r)).
    constructor; [reflexivity|exact IH].
Qed.

Lemma Forall_trimFirst (P : string -> Prop) (l : list string) :
  (forall s, P s -> P (trimStart s)) -> Forall P l -> Forall P (trimFirst l).
Proof.
  intros HP H. destruct H; constructor; auto.
Qed.

Lemma Forall_trimLast (P : string -> Prop) (l : list string) :
  (forall s, P s -> P (trimEnd s)) -> Forall P l -> Forall P (trimLast l).
Proof.
  intros HP. induction l as [|x [|y r] IH]; intros H; [constructor| |].
  - inversion H; subst. constructor; auto.
  - inversion H; subst.
    change (trimLast (x :: y :: r)) with (x :: trimLast (y :: r)).
    constructor; auto.
Qed.

Lemma allWhite_trimStart (s : string) : allWhite (trimStart s) = allWhite s.
Proof.
  induction s as [|c s IH]; [reflexivity|]. simpl.
  destruct (isWhiteSpace c) eqn:E; [exact IH|]. simpl. now rewrite E.
Qed.

Lemma allWhite_concat (x : string) (r : list string) :
  allWhite x = false -> allWhite (String.concat nl (x :: r)) = false.
Proof.
  intros H. destruct r as [|y r]; [exact H|].
  rewrite concat_cons, allWhite_app, H. reflexivity.
Qed.

Lemma groups_sets (category : string) (sets : list (string * string * string)) :
  groups category (flat_map setLines sets)
  = map (fun set => tleEntry category (setLines set) 0) sets.
Proof.
  induction sets as [|[[name l1] l2] rest IH]; [reflexivity|].
  cbn [flat_map setLines app groups map]. now rewrite IH.
Qed.

Lemma parsed_entry_lines (category text : string) (e : TLEData) :
  e ∈ parseTLEText category text ->
  exists a b c, e = tleEntry category [a; b; c] 0.
Proof.
  rewrite parseTLEText_by_three. generalize (splitLines (trim text)).
  intros lines. induction lines as [|a|a b|a b c l IH] using list_ind3;
    cbn [groups]; try solve [intros H; inversion H].
  intros [->|H]%elem_of_cons; eauto.
Qed.

(** X18.  Every entry parsed from a text carries the category asked for;
    its name, its two lines and its catalog number have no white space
    at either end; the catalog number has at most five characters, and
    it is either all digits or the trimmed columns 3 to 7 of the first
    line. *)
Theorem parsed_entries_shape (category text : string) :
  Forall (fun e =>
            td_category e = category
            /\ trim (td_name e) = td_name e
            /\ trim (td_line1 e) = td_line1 e
            /\ trim (td_line2 e) = td_line2 e
            /\ trim (td_noradId e) = td_noradId e
            /\ (String.length (td_noradId e) <= 5)%nat
            /\ (digitsOnly (td_noradId e) = true
                \/ td_noradId e
                   = trim (String.substring 2 5 (td_line1 e))))
    (parseTLEText category text).
Proof.
  apply Forall_forall. intros e (a & b & c & ->)%parsed_entry_lines.
  rewrite tleEntry_three.
  cbn [td_category td_name td_line1 td_line2 td_noradId].
  split; [reflexivity|]. repeat (split; [apply trim_idem|]).
  unfold noradIdOf.
  destruct (digitsOnly (trim (String.substring 2 5 _))) eqn:E.
  - split; [apply trim_idem|]. split; [apply columns_length|]. now left.
  - split; [apply trim_idem|]. split; [apply columns_length|]. now right.
Qed.

(** X19.  A catalog text is read back.  For element sets written three
    lines each, a line feed between lines, white space of any kind
    before and after the whole, and lines that hold some text and no line
    feed, the parser returns one entry for each set, in order, made of
    the set's three lines with the white space at their ends removed. *)
Theorem catalog_text_round_trip (category lead trail : string)
    (sets : list (string * string * string)) :
  allWhite lead = true -> allWhite trail = true ->
  Forall (fun l => textLine l = true) (flat_map setLines sets) ->
  parseTLEText category (lead +:+ tleText sets +:+ trail)
  = map (fun set => tleEntry category (setLines set) 0) sets.
Proof.
  intros Hlead Htrail Hlines. rewrite parseTLEText_by_three.
  rewrite <- groups_sets. unfold tleText, trim.
  rewrite trimStart_app_white by exact Hlead.
  destruct (flat_map setLines sets) as [|x r] eqn:E.
  - rewrite string_app_nil, (trimStart_white _ Htrail). reflexivity.
  - rewrite <- E in *.
    assert (Hnb : Forall (fun l => allWhite l = false)
                    (flat_map setLines sets)).
    { eapply Forall_impl; [exact Hlines|]. unfold textLine.
      intros l [_ H]%andb_prop. now apply negb_true_iff. }
    assert (Hnn : Forall (fun l => noNewline l = true)
                    (flat_map setLines sets)).
    { eapply Forall_impl; [exact Hlines|]. unfold textLine.
      now intros l [H _]%andb_prop. }
    rewrite trimStart_app.
    2:{ rewrite E. apply allWhite_concat. rewrite E in Hnb.
        now inversion Hnb. }
    rewrite trimEnd_app_white by exact Htrail.
    rewrite trimStart_concat by exact Hnb.
    destruct (trimEnd_concat (trimFirst (flat_map setLines sets)))
      as (-> & _).
    { rewrite E. discriminate. }
    { eapply Forall_impl; [|exact trimEnd_nonblank].
      apply Forall_trimFirst; [|exact Hnb].
      intros s Hs. now rewrite allWhite_trimStart. }
    rewrite splitLines_concat.
    + etransitivity; [apply groups_sameText, trimLast_sameText|].
      apply groups_sameText, trimFirst_sameText.
    + rewrite E. simpl. destruct r; discriminate.
    + apply Forall_trimLast; [apply noNewline_trimEnd|].
      apply Forall_trimFirst; [apply noNewline_trimStart|exact Hnn].
Qed.

Section Catalog.
Context {R : Rounding} (M : MathLib) (L : SatelliteJs).

Lemma allSatellites_app (endpoint fetch : string -> option string)
    (l1 l2 : list string) :
  allSatellites endpoint fetch (l1 ++ l2)
  = allSatellites endpoint fetch l1 ++ allSatellites endpoint fetch l2.
Proof. unfold allSatellites. apply flat_map_app. Qed.

Lemma allSatellites_unserved (endpoint fetch : string -> option string)
    (c : string) :
  endpoint c = None
  \/ (exists url, endpoint c = Some url /\ fetch url = None) ->
  allSatellites endpoint fetch [c] = [].
Proof.
  unfold allSatellites. cbn [flat_map].
  intros [->|(url & -> & Hf)]; [reflexivity|].
  unfold fetchTLEFromCelesTrak. now rewrite Hf.
Qed.

(** X20.  From the categories asked for to the batch.  Every sample that
    the worker returns for the catalog assembled by [GET] carries one of
    the categories asked for, that category has an address in the table,
    the download from that address succeeded, and the sample has the
    name, the catalog number and the category of an entry parsed from
    the text downloaded.  A category without address, or whose download
    fails, adds nothing: the catalog, the batch and the cache are what
    they are when that category is not asked for. *)
Theorem batch_categories_requested (endpoint fetch : string -> option string)
    (categories : list string) (cache : gmap string (SatRec L))
    (timestamp observerLat observerLon observerAlt : number) :
  let pass cats :=
    propagateSatellites M L cache (allSatellites endpoint fetch cats)
      timestamp observerLat observerLon observerAlt in
  Forall (fun s =>
            category s ∈ categories
            /\ exists url text e,
                 endpoint (category s) = Some url
                 /\ fetch url = Some text
                 /\ e ∈ parseTLEText (category s) text
                 /\ sampleIdentity s = entryIdentity (toSatelliteData e))
    (pass categories).1
  /\ (forall before c after,
        categories = before ++ c :: after ->
        endpoint c = None
        \/ (exists url, endpoint c = Some url /\ fetch url = None) ->
        allSatellites endpoint fetch categories
        = allSatellites endpoint fetch (before ++ after)
        /\ pass categories = pass (before ++ after)).
Proof.
  intros pass. split.
  - apply Forall_forall. intros s Hs.
    destruct (sample_outcome M L cache _ timestamp
                observerLat observerLon observerAlt s Hs)
      as (parsed & satellite & Hin & E).
    apply entryOutcome_identity in E. rewrite E.
    assert (Hcat : category s = sd_category satellite)
      by (now injection E).
    rewrite Hcat. clear E Hcat Hs.
    unfold allSatellites in Hin.
    apply list_elem_of_In, in_flat_map in Hin
      as (c & Hc%list_elem_of_In & Hin).
    destruct (endpoint c) as [url|] eqn:Hurl; [|destruct Hin].
    apply list_elem_of_In, list_elem_of_fmap in Hin as (e & -> & He).
    unfold fetchTLEFromCelesTrak in He.
    destruct (fetch url) as [text|] eqn:Hf; [|inversion He].
    assert (Hc' : td_category e = c).
    { destruct (parsed_entry_lines _ _ _ He) as (x & y & z & ->).
      now rewrite tleEntry_three. }
    cbn [toSatelliteData sd_category]. rewrite Hc'.
    split; [exact Hc|]. exists url, text, e. rewrite Hurl. auto.
  - intros before c after -> Hun.
    assert (E : allSatellites endpoint fetch (before ++ c :: after)
                = allSatellites endpoint fetch (before ++ after)).
    { change (c :: after) with ([c] ++ after).
      rewrite !allSatellites_app, (allSatellites_unserved _ _ _ Hun).
      reflexivity. }
    split; [exact E|]. subst pass. cbn beta. now rewrite E.
Qed.

End Catalog.

(** ** The cache file of the catalog *)

Lemma nat_of_ascii_inj (x y : ascii) :
  nat_of_ascii x = nat_of_ascii y -> x = y.
Proof.
  intros H. rewrite <- (ascii_nat_embedding x), <- (ascii_nat_embedding y).
  now rewrite H.
Qed.

Lemma codeUnitOrder_total : Total codeUnitOrder.
Proof.
  intros a. induction a as [|x a IH]; intros [|y b]; unfold codeUnitOrder;
    simpl; auto.
  destruct (IH b) as [H|H]; unfold codeUnitOrder in H; rewrite H;
    destruct (Nat.ltb_spec (nat_of_ascii x) (nat_of_ascii y)),
      (Nat.ltb_spec (nat_of_ascii y) (nat_of_ascii x)),
      (Nat.eqb_spec (nat_of_ascii x) (nat_of_ascii y)),
      (Nat.eqb_spec (nat_of_ascii y) (nat_of_ascii x));
    simpl; auto; lia.
Qed.

Lemma codeUnitOrder_trans : Transitive codeUnitOrder.
Proof.
  intros a. induction a as [|x a IH]; intros [|y b] [|z c];
    unfold codeUnitOrder; simpl; auto; try discriminate.
  intros H1 H2.
  destruct (Nat.ltb_spec (nat_of_ascii x) (nat_of_ascii y)),
    (Nat.ltb_spec (nat_of_ascii y) (nat_of_ascii z)),
    (Nat.ltb_spec (nat_of_ascii x) (nat_of_ascii z)),
    (Nat.eqb_spec (nat_of_ascii x) (nat_of_ascii y)),
    (Nat.eqb_spec (nat_of_ascii y) (nat_of_ascii z)),
    (Nat.eqb_spec (nat_of_ascii x) (nat_of_ascii z));
    simpl in *; try discriminate; try reflexivity; try lia.
  exact (IH b c H1 H2).
Qed.

Lemma codeUnitOrder_antisym : AntiSymm (=) codeUnitOrder.
Proof.
  intros a. induction a as [|x a IH]; intros [|y b];
    unfold codeUnitOrder; simpl; auto; try discriminate.
  intros H1 H2.
  destruct (Nat.ltb_spec (nat_of_ascii x) (nat_of_ascii y)),
    (Nat.ltb_spec (nat_of_ascii y) (nat_of_ascii x)),
    (Nat.eqb_spec (nat_of_ascii x) (nat_of_ascii y)),
    (Nat.eqb_spec (nat_of_ascii y) (nat_of_ascii x));
    simpl in *; try discriminate; try lia.
  f_equal; [now apply nat_of_ascii_inj|exact (IH b H1 H2)].
Qed.

(** X21.  The cache file of a request does not depend on the order in
    which the categories are asked for: two requests whose category lists
    are rearrangements of one another use the same file. *)
Theorem cache_file_ignores_order (sha1hex : string -> string)
    (categories categories' : list string) :
  categories ≡ₚ categories' ->
  cacheFileName sha1hex categories = cacheFileName sha1hex categories'.
Proof.
  intros Hp. unfold cacheFileName, categoriesKey.
  pose proof codeUnitOrder_total as Htotal.
  pose proof codeUnitOrder_trans as Htrans.
  pose proof codeUnitOrder_antisym as Hanti.
  assert (E : merge_sort codeUnitOrder categories
              = merge_sort codeUnitOrder categories').
  { apply (Sorted_unique codeUnitOrder); try apply Sorted_merge_sort;
      try apply _.
    now rewrite !merge_sort_Permutation. }
  now rewrite E.
Qed.

(** * The worker on the stand-in libraries

    The closed statements below run the model with exact arithmetic, the
    rational [Math] functions and the table driven library of [Fixture]. *)

#[local] Existing Instance exact.

(** ** Arithmetic *)

Example rem_sign_of_dividend : (lit (-7) %% lit 360)%js = lit (-7).
Proof. num_eq. Qed.

Example rem_wraps : (lit 725.5 %% lit 360)%js = lit 5.5.
Proof. num_eq. Qed.

Example rem_by_zero : (lit 1 %% lit 0)%js = NaN.
Proof. reflexivity. Qed.

Example div_by_zero : (lit 1 / lit 0)%js = PosInf /\ (lit 0 / lit 0)%js = NaN.
Proof. split; reflexivity. Qed.

Example normalizeLon_180 : normalizeLon (lit 180) = lit (-180).
Proof. num_eq. Qed.

Example normalizeLon_190 : normalizeLon (lit 190) = lit (-170).
Proof. num_eq. Qed.

Example normalizeLon_minus_181 : normalizeLon (lit (-181)) = lit 179.
Proof. num_eq. Qed.

Example normalizeLon_infinite : normalizeLon PosInf = NaN.
Proof. reflexivity. Qed.

Example new_Date_truncates : getTime (new_Date (lit 1000.75)) = lit 1000.
Proof. num_eq. Qed.

Example or_default_zero_is_missing :
  or_default (Some (lit 0)) (lit 5) = lit 5
  /\ or_default (Some NaN) (lit 5) = lit 5
  /\ or_default (Some (lit 3)) (lit 5) = lit 3.
Proof. repeat split. Qed.

(** ** The pass over a catalog *)

Example mixed_outcomes :
  map kind (outcomes Fixture.math Fixture.lib (new_Date (lit 1000)) ∅
              Fixture.mixed)
  = ["parse"; "record"; "propagation"; "propagation"; "propagation";
     "transform"; "sample"].
Proof. vm_compute. reflexivity. Qed.

Example mixed_counters :
  let st := propagateLoop Fixture.math Fixture.lib ∅ Fixture.mixed (lit 1000) in
  (length (positions st), parsedCount st, propagatedCount st,
   geodeticCount st, debugLogged st) = (1, 6, 2, 1, 1)%nat.
Proof. vm_compute. reflexivity. Qed.

Example colliding_keys :
  map cacheKey Fixture.colliding = ["7--a-b"; "7--a-b"]
  /\ keyConsistent Fixture.colliding = false.
Proof. split; vm_compute; reflexivity. Qed.

Example far_object_not_visible :
  isSatelliteVisible Fixture.math
    {| lat := lit 0; lon := lit 60; alt := lit 400 |}
    (lit 0) (lit 0) (lit 0) = false.
Proof. vm_compute. reflexivity. Qed.

Example near_object_visible :
  isSatelliteVisible Fixture.math
    {| lat := lit 5; lon := lit 5; alt := lit 400 |}
    (lit 0) (lit 0) (lit 0) = true.
Proof. vm_compute. reflexivity. Qed.

Example altitude_over_equator :
  let g := ecefToGeodetic Fixture.math (lit 6778) (lit 0) (lit 0) in
  (lit 399 <? height g)%js = true /\ (height g <? lit 401)%js = true
  /\ latitude g = lit 0.
Proof. repeat split; try (vm_compute; reflexivity). num_eq. Qed.

(** Away from the equator the five refinements move the latitude: the
    result lies below the initial value. *)
Example refinements_move_latitude :
  let p := Math_sqrt Fixture.math (lit 4000 * lit 4000 + lit 0 * lit 0)%js in
  let g := ecefToGeodetic Fixture.math (lit 4000) (lit 0) (lit 5000) in
  (latitude g <? Inversion.initialLatitude Fixture.math p (lit 5000))%js = true
  /\ latitude g <> Inversion.initialLatitude Fixture.math p (lit 5000).
Proof.
  intros p g.
  assert (H : (latitude g
               <? Inversion.initialLatitude Fixture.math p (lit 5000))%js
              = true) by (vm_compute; reflexivity).
  split; [exact H|]. intros E. rewrite E in H. vm_compute in H.
  discriminate H.
Qed.

(** Two sound entries and one that fails parsing: [p = 1], [g = 0],
    [t = 0], and the three counters all read 2. *)
Lemma counters_count_survivors :
  let st := propagateLoop Fixture.math Fixture.lib ∅ Fixture.oneBad (lit 1000) in
  let os :=
    outcomes Fixture.math Fixture.lib (new_Date (lit 1000)) ∅ Fixture.oneBad in
  let p := countb isParseFailure os in
  let g := countb isPropagationFailure os in
  let t := countb isTransformFailure os in
  (p, g, t) = (1, 0, 0)%nat
  /\ (parsedCount st, propagatedCount st, geodeticCount st) = (2, 2, 2)%nat
  /\ ~ (parsedCount st = p /\ propagatedCount st = g /\ geodeticCount st = t).
Proof.
  split; [vm_compute; reflexivity|]. split; [vm_compute; reflexivity|].
  vm_compute. intros (H & _). discriminate H.
Qed.

Lemma longitude_in_range_witness :
  Forall (fun s => lonInRange (lon (position s)))
    (propagateSatellites Fixture.math Fixture.lib ∅ Fixture.mixed
       (lit 1000) (lit 59.9) (lit 10.75) (lit 0)).1.
Proof.
  apply (longitude_in_range Fixture.math Fixture.lib).
  constructor; unfold round, exact; intros; auto.
Defined.

Lemma propagation_check_witness :
  let st := initialState (L := Fixture.lib) ∅ in
  let st' := loopBody Fixture.math Fixture.lib (new_Date (lit 1000)) st
               Fixture.nanPosition in
  positions st' = positions st
  /\ propagatedCount st' = propagatedCount st
  /\ geodeticCount st' = geodeticCount st.
Proof.
  intros st st'.
  refine (proj1 (propagation_check Fixture.math Fixture.lib
                   (new_Date (lit 1000))) st Fixture.nanPosition
            {| Fixture.rec_line1 := "1 00005U";
               Fixture.rec_line2 := "nan-position" |} _ _).
  - reflexivity.
  - vm_compute. left. reflexivity.
Defined.

(** The propagation of this entry has a velocity with two non-finite
    components, and the entry is emitted with a non-finite velocity. *)
Lemma nonfinite_velocity_emitted :
  let out :=
    (propagateSatellites Fixture.math Fixture.lib ∅ [Fixture.nanVelocity]
       (lit 1000) (lit 0) (lit 0) (lit 0)).1 in
  propagate Fixture.lib
    {| Fixture.rec_line1 := "1 00008U"; Fixture.rec_line2 := "nan-velocity" |}
    (new_Date (lit 1000))
  = PositionAndVelocity (Some (Fixture.vec (lit 6778) (lit 0) (lit 0)))
                        (Some (Fixture.vec NaN (lit 7.5) PosInf))
  /\ map velocity out = [ {| vx := NaN; vy := NaN; vz := PosInf |} ]
  /\ ~ Forall (fun s => JsNum.isFinite (vx (velocity s)) = true) out.
Proof.
  split; [reflexivity|]. split; [vm_compute; reflexivity|].
  intros H. vm_compute in H. inversion H as [|? ? Hhd _]. discriminate Hhd.
Qed.

(** ** The visibility rule *)

Lemma visibility_rule_witness :
  isSatelliteVisible Fixture.math
    {| lat := lit 59.9; lon := lit 10.75; alt := lit 200 |}
    (lit 59.9) (lit 10.75) (lit 0) = true
  /\ isSatelliteVisible Fixture.math
       {| lat := lit 59.9; lon := lit 10.75; alt := lit 199.999 |}
       (lit 59.9) (lit 10.75) (lit 0) = false.
Proof.
  assert (rlaws : RoundingLaws exact).
  { constructor; unfold round, exact; intros; auto. }
  assert (laws : MathLaws Fixture.math).
  { constructor; intros; try reflexivity;
      cbn [Math_sin Math_sqrt Math_atan2 Fixture.math];
      (apply (f_equal Num), Qc_is_canon; vm_compute; reflexivity). }
  destruct (visibility_rule Fixture.math rlaws laws) as (_ & Hat & Hbelow).
  split; [apply Hat | apply Hbelow];
    split; unfold Qcle, Qle; vm_compute; discriminate.
Defined.

(** ** The cache *)

Lemma cache_hit_and_fresh_key_witness :
  let r := {| Fixture.rec_line1 := line1 (tle Fixture.tleA);
              Fixture.rec_line2 := line2 (tle Fixture.tleA) |} in
  let c1 := (parseTLE Fixture.lib ∅ Fixture.tleA).2 in
  parseTLE Fixture.lib c1 Fixture.tleA = (Some r, c1)
  /\ (parseTLE Fixture.lib c1 Fixture.tleB).2 !! cacheKey Fixture.tleA = Some r.
Proof.
  intros r c1.
  assert (H : parseTLE Fixture.lib ∅ Fixture.tleA = (Some r, c1)) by reflexivity.
  destruct (cache_hit_and_fresh_key Fixture.lib ∅ c1 Fixture.tleA Fixture.tleB r H)
    as (Hsame & Hnew).
  split.
  - exact (Hsame Fixture.parse).
  - apply Hnew; [reflexivity|reflexivity|discriminate].
Defined.

(** The record parsed from the first element set is still in the cache
    after the second element set of the same object has been parsed. *)
Lemma prior_record_not_evicted :
  let c1 := (parseTLE Fixture.lib ∅ Fixture.tleA).2 in
  let c2 := (parseTLE Fixture.lib c1 Fixture.tleB).2 in
  c2 !! cacheKey Fixture.tleA
    = Some {| Fixture.rec_line1 := line1 (tle Fixture.tleA);
              Fixture.rec_line2 := line2 (tle Fixture.tleA) |}
  /\ c2 !! cacheKey Fixture.tleA <> None.
Proof. split; [vm_compute; reflexivity | vm_compute; discriminate]. Qed.


(** Neither alternative of the hypothesis holds for the stand-in parser,
    which throws on an empty first line, on a catalog with two entries
    under one key: the first pass drops the entry named FIRST, whose
    text the parser rejects; the second pass finds the record of SECOND
    under the key of FIRST and emits both.  No such input exists for
    satellite.js, whose parser does not throw on strings. *)
Lemma second_pass_differs :
  let first :=
    propagateSatellites Fixture.math Fixture.lib ∅ Fixture.colliding (lit 1000)
      (lit 0) (lit 0) (lit 0) in
  let second :=
    propagateSatellites Fixture.math Fixture.lib first.2 Fixture.colliding
      (lit 1000) (lit 0) (lit 0) (lit 0) in
  map cacheKey Fixture.colliding = ["7--a-b"; "7--a-b"]
  /\ map name first.1 = ["SECOND"]
  /\ map name second.1 = ["FIRST"; "SECOND"]
  /\ second.1 <> first.1.
Proof.
  split; [reflexivity|]. split; [vm_compute; reflexivity|].
  split; [vm_compute; reflexivity|].
  intros H. apply (f_equal (map name)) in H. vm_compute in H. discriminate H.
Qed.

(** ** Messages *)

(** A PROPAGATE message whose payload has no catalog. *)
Lemma missing_catalog_is_an_error :
  let msg :=
    {| msg_type := PROPAGATE;
       msg_data := Some {| satellites := None; timestamp := Some (lit 1000);
                           observerLat := None; observerLon := None;
                           observerAlt := None |} |} in
  let reply := (onmessage Fixture.math Fixture.lib (lit 2000) ∅ msg).1 in
  reply = ERROR "No satellite data provided"
  /\ ~ (exists d, reply = POSITIONS d /\ pd_positions d = []).
Proof.
  split; [reflexivity|]. intros (d & H & _). discriminate H.
Qed.

(** A request with a timestamp of half a millisecond, while the wall
    clock reads 1700000000000, is answered with the batch of the instant
    0: the date made of the timestamp is the epoch, the batch is the one
    of the instant 0, where the object is below 1000 km, and not the one
    of the wall clock, where it is above. *)
Lemma epoch_instant_requested :
  let reply :=
    (onmessage Fixture.math Drift.lib (lit 1700000000000) ∅
       (Sample.request [Fixture.tleA] (lit 0.5) (lit 59.9) (lit 10.75))).1 in
  let batch t :=
    (propagateSatellites Fixture.math Drift.lib ∅ [Fixture.tleA] t
       (lit 59.9) (lit 10.75) (lit 0)).1 in
  let low s := (alt (position s) <? lit 1000)%js in
  getTime (new_Date (lit 0.5)) = lit 0
  /\ reply = POSITIONS {| pd_positions := batch (lit 0);
                          pd_timestamp := lit 0.5;
                          pd_count := length (batch (lit 0)) |}
  /\ map low (batch (lit 0)) = [true]
  /\ map low (batch (lit 1700000000000)) = [false]
  /\ batch (lit 0) <> batch (lit 1700000000000).
Proof.
  intros reply batch low.
  assert (Hdate : new_Date (lit 0.5) = new_Date (lit 0)).
  { vm_compute. reflexivity. }
  assert (H0 : map low (batch (lit 0)) = [true]) by (vm_compute; reflexivity).
  assert (H1 : map low (batch (lit 1700000000000)) = [false])
    by (vm_compute; reflexivity).
  split; [vm_compute; reflexivity|]. split; [|split; [exact H0|]].
  - subst reply batch. unfold onmessage, Sample.request.
    cbn [msg_type msg_data satellites timestamp observerLat observerLon
         observerAlt].
    change (or_default (Some (lit 0.5)) (lit 1700000000000)) with (lit 0.5).
    rewrite (propagateSatellites_date Fixture.math Drift.lib ∅ [Fixture.tleA]
               (lit 0.5) (lit 0) _ _ _ (lit 59.9) (lit 10.75) (lit 0) Hdate).
    destruct (propagateSatellites _ _ _ _ _ _ _ _). reflexivity.
  - split; [exact H1|]. intros E. rewrite E, H1 in H0. discriminate H0.
Qed.

(** A request for the instant 0 while the wall clock reads
    1700000000000 is answered for the wall clock. *)
Lemma epoch_timestamp_replaced_witness :
  let msg :=
    {| msg_type := PROPAGATE;
       msg_data := Some {| satellites := Some Fixture.oneBad;
                           timestamp := Some (lit 0);
                           observerLat := Some (lit 59.9);
                           observerLon := Some (lit 10.75);
                           observerAlt := None |} |} in
  let atNow :=
    (propagateSatellites Fixture.math Fixture.lib ∅ Fixture.oneBad
       (lit 1700000000000) (lit 59.9) (lit 10.75) (lit 0)).1 in
  (onmessage Fixture.math Fixture.lib (lit 1700000000000) ∅ msg).1
  = POSITIONS {| pd_positions := atNow; pd_timestamp := lit 1700000000000;
                 pd_count := length atNow |}.
Proof.
  intros msg atNow.
  destruct (epoch_timestamp_replaced Fixture.math Fixture.lib
              (lit 1700000000000) ∅ Fixture.oneBad
              (Some (lit 59.9)) (Some (lit 10.75)) None) as (Hnow & Hzero & _).
  subst msg. rewrite Hzero. exact Hnow.
Defined.

(** ** Passes, keys and the cache, on the stand-ins *)

Lemma pass_caches_accepted_entries_witness :
  is_Some ((propagateSatellites Fixture.math Fixture.lib ∅ Fixture.mixed
              (lit 1000) (lit 0) (lit 0) (lit 0)).2
           !! cacheKey (Fixture.entry "3" "1 00003U" "decayed")).
Proof.
  apply (pass_caches_accepted_entries Fixture.math Fixture.lib ∅
           Fixture.mixed).
  - apply list_elem_of_In. simpl. tauto.
  - eexists. reflexivity.
Defined.

Lemma warm_cache_needs_no_parser_witness :
  let sats := [Fixture.tleA; Fixture.tleB] in
  let warm :=
    (propagateSatellites Fixture.math Fixture.lib ∅ sats (lit 1000)
       (lit 0) (lit 0) (lit 0)).2 in
  propagateSatellites Fixture.math
    (with_parser Fixture.lib (fun _ _ => None)) warm sats (lit 2000)
    (lit 0) (lit 0) (lit 0)
  = propagateSatellites Fixture.math Fixture.lib warm sats (lit 2000)
      (lit 0) (lit 0) (lit 0)
  /\ (propagateSatellites Fixture.math Fixture.lib warm sats (lit 2000)
        (lit 0) (lit 0) (lit 0)).2 = warm.
Proof.
  intros sats warm.
  apply (warm_cache_needs_no_parser Fixture.math Fixture.lib warm sats).
  intros s Hs. apply list_elem_of_In in Hs. simpl in Hs.
  destruct Hs as [<-|[<-|[]]]; eexists; vm_compute; reflexivity.
Defined.

Lemma cacheKey_injective_witness :
  let a := Fixture.tleA in
  let b := {| sd_name := "ISS (ZARYA)"; sd_noradId := "25544";
              sd_category := "stations"; tle := tle Fixture.tleA |} in
  sd_noradId a = sd_noradId b /\ tle a = tle b.
Proof.
  intros a b. apply (cacheKey_injective 25 a b); reflexivity.
Defined.

Lemma fixed_column_catalog_repeats_witness :
  let sats := [Fixture.tleA; Fixture.tleB; Fixture.tleA] in
  let first :=
    propagateSatellites Fixture.math Fixture.lib ∅ sats (lit 1000)
      (lit 59.9) (lit 10.75) (lit 0) in
  propagateSatellites Fixture.math Fixture.lib first.2 sats (lit 1000)
    (lit 59.9) (lit 10.75) (lit 0)
  = first.
Proof.
  intros sats.
  apply (fixed_column_catalog_repeats Fixture.math Fixture.lib 25 ∅ sats).
  repeat (constructor; [reflexivity|]). constructor.
Defined.

(** ** Messages and the hook *)

Lemma observer_is_ignored_witness :
  onmessage Fixture.math Fixture.lib (lit 5) ∅
    (Sample.request Fixture.mixed (lit 1000) (lit 59.9) (lit 10.75))
  = onmessage Fixture.math Fixture.lib (lit 5) ∅
      (Sample.request Fixture.mixed (lit 1000) (lit (-33.9)) (lit 151.2)).
Proof.
  apply (observer_is_ignored Fixture.math Fixture.lib); reflexivity.
Defined.

Lemma tick_round_trip_witness :
  exists msg,
    propagatePositions true [Fixture.tleA] (lit 1700000000000)
      {| lat := lit 59.9; lon := lit 10.75; alt := lit 0 |} = Some msg
    /\ handleReply Sample.idleHook
         (onmessage Fixture.math Fixture.lib (lit 5) ∅ msg).1
       = {| hk_satellites :=
              (propagateSatellites Fixture.math Fixture.lib ∅
                 [Fixture.tleA] (lit 1700000000000)
                 (lit 59.9) (lit 10.75) (lit 0)).1;
            hk_loading := false;
            hk_error := None;
            hk_lastUpdate := Some (lit 1700000000000) |}.
Proof.
  apply (tick_round_trip Fixture.math Fixture.lib Sample.idleHook
           [Fixture.tleA] (lit 1700000000000) (lit 5)
           {| lat := lit 59.9; lon := lit 10.75; alt := lit 0 |} ∅);
    [discriminate|reflexivity].
Defined.

Lemma error_reply_keeps_batch_witness :
  let msg := {| msg_type := OtherType "PING"; msg_data := None |} in
  handleReply Sample.idleHook
    (onmessage Fixture.math Fixture.lib (lit 5) ∅ msg).1
  = {| hk_satellites := Sample.shells; hk_loading := false;
       hk_error := Some "Unknown message type: PING";
       hk_lastUpdate := Some (lit 1000) |}.
Proof.
  intros msg.
  apply (error_reply_keeps_batch Fixture.math Fixture.lib Sample.idleHook
           (lit 5) ∅ msg "Unknown message type: PING").
  reflexivity.
Defined.

(** ** The consumers *)

(** Of the five samples, three are in a range: the one below the ground
    and the one without altitude are in none. *)
Lemma altitude_ranges_partition_witness :
  exists a,
    analysisData Sample.shells = Some a
    /\ an_ranges a = [1; 1; 1]%nat
    /\ list_sum (an_ranges a)
       = countb (fun sat => js_ge (alt (position sat)) (lit 0)
                            && JsNum.lt (alt (position sat)) PosInf)
           Sample.shells.
Proof.
  eexists. split; [reflexivity|]. split; [reflexivity|].
  apply (altitude_ranges_partition Sample.shells). reflexivity.
Defined.

Lemma invisible_filter_shows_all_witness :
  let batch :=
    (propagateSatellites Fixture.math Fixture.lib ∅ Fixture.mixed
       (lit 1000) (lit 0) (lit 0) (lit 0)).1 in
  applyFilters Sample.strings batch Sample.hiddenFilter = []
  /\ displayData (applyFilters Sample.strings batch Sample.hiddenFilter)
       batch = batch.
Proof.
  apply (invisible_filter_shows_all Fixture.math Fixture.lib Sample.strings
           ∅ Fixture.mixed (lit 1000) (lit 0) (lit 0) (lit 0)
           Sample.hiddenFilter).
  reflexivity.
Defined.

(** ** The catalog source *)

(** A served text with carriage returns and a padded name is read back
    as the one element set, trimmed. *)
Lemma catalog_text_round_trip_witness :
  parseTLEText "stations"
    (Sample.lf +:+ tleText [Sample.stationSet] +:+ Sample.cr +:+ Sample.lf)
  = [ {| td_name := "ISS (ZARYA)";
         td_line1 :=
           "1 25544U 98067A   24001.50000000  .00016717  00000-0  10270-3 0  9005";
         td_line2 :=
           "2 25544  51.6400 208.9163 0006317  69.9862  25.2906 15.49815689 12345";
         td_category := "stations";
         td_noradId := "25544" |} ].
Proof.
  apply (catalog_text_round_trip "stations" Sample.lf
           (Sample.cr +:+ Sample.lf) [Sample.stationSet]).
  - reflexivity.
  - reflexivity.
  - repeat (constructor; [reflexivity|]). constructor.
Defined.

(** The digest stands in as the identity; the two lists name the same
    three categories. *)
Lemma cache_file_ignores_order_witness :
  cacheFileName (fun s => s) ["starlink"; "active"; "gnss"]
  = cacheFileName (fun s => s) ["active"; "starlink"; "gnss"].
Proof.
  apply (cache_file_ignores_order (fun s => s)). apply perm_swap.
Defined.


(** Of three categories asked for, one has no address and the download
    of another fails: the catalog is that of the third alone. *)
Lemma batch_categories_requested_witness :
  allSatellites Sample.table Sample.served ["weather"; "stations"; "bogus"]
  = allSatellites Sample.table Sample.served ["stations"; "bogus"]
  /\ map sd_name
       (allSatellites Sample.table Sample.served
          ["weather"; "stations"; "bogus"]) = ["ISS (ZARYA)"]
  /\ map name
       (propagateSatellites Fixture.math Fixture.lib ∅
          (allSatellites Sample.table Sample.served
             ["weather"; "stations"; "bogus"])
          (lit 1000) (lit 0) (lit 0) (lit 0)).1 = ["ISS (ZARYA)"].
Proof.
  destruct (batch_categories_requested Fixture.math Fixture.lib
              Sample.table Sample.served ["weather"; "stations"; "bogus"]
              ∅ (lit 1000) (lit 0) (lit 0) (lit 0)) as (_ & Hdrop).
  destruct (Hdrop [] "weather" ["stations"; "bogus"] eq_refl) as (E & _).
  - right. exists "https://example.org/weather". split; reflexivity.
  - split; [exact E|]. split; vm_compute; reflexivity.
Defined.
